(** * Cursor pagination over a search index: the deep-pagination service

    A shallow embedding of [DeepPaginationService] (deep-pagination.service.ts
    and types.ts) together with the parts of the JavaScript platform it calls
    ([JSON.stringify], [JSON.parse], [Buffer] with the base64 and utf-8
    encodings), followed by the properties of the service.

    Conventions of the embedding.
    - Text is carried as its sequence of UTF-8 bytes, in Rocq's [string]
      (a list of 8-bit characters).  [Buffer.from(text)] and
      [buffer.toString('utf-8')] are then the identity on the
      representation.
    - Numbers.  Binary floating point is outside the embedding.  A number
      that is an integer is a [Z] and prints as its decimal digits; this is
      what JavaScript does for the integers a double holds exactly, up to
      2^53 in magnitude ([isSafeInteger]).  A number with a fraction or an
      exponent is held by the text of its JSON literal ([JFloat]): the text
      [JSON.stringify] prints for it ([canonical_literal]), which
      [JSON.parse] reads back to the same number.  The numbers that JSON
      cannot write, NaN, the infinities and the negative zero, are values
      of their own ([JSpecial]).
    - An optional field that is absent, undefined or null is [None].
    - Exceptions are values of [JsError]; the calls of the engine, the
      console and the exceptions are threaded through the state-and-error
      monad [M].  The engine is a parameter of the service: a function from
      the requests already received and the present request to an answer or
      a failure. *)

From Stdlib Require Import ZArith List String Ascii Bool Lia.
From Stdlib Require Import Decimal DecimalString DecimalN DecimalFacts.
Import ListNotations.

Open Scope string_scope.
Open Scope list_scope.
Open Scope Z_scope.

(** ** Base64, as [Buffer] implements it *)

Module Base64.

(** The standard alphabet, used by [buffer.toString('base64')]. *)
Definition alphabet : string :=
  "ABCDEFGHIJKLMNOPQRSTUVWXYZabcdefghijklmnopqrstuvwxyz0123456789+/".

(** The character of a 6-bit group (an [ascii] below 64). *)
Definition char_of_sextet (s : ascii) : ascii :=
  match String.get (nat_of_ascii s) alphabet with
  | Some c => c
  | None => "="%char
  end.

(** The 6-bit group of a character.  [Buffer.from(s, 'base64')] accepts the
    standard and the URL-safe alphabet. *)
Definition unbase64 (c : ascii) : option ascii :=
  let n := nat_of_ascii c in
  if (65 <=? n)%nat && (n <=? 90)%nat then Some (ascii_of_nat (n - 65))
  else if (97 <=? n)%nat && (n <=? 122)%nat then Some (ascii_of_nat (n - 71))
  else if (48 <=? n)%nat && (n <=? 57)%nat then Some (ascii_of_nat (n + 4))
  else if (n =? 43)%nat || (n =? 45)%nat then Some (ascii_of_nat 62)
  else if (n =? 47)%nat || (n =? 95)%nat then Some (ascii_of_nat 63)
  else None.

(** [buffer.toString('base64')]: three bytes give four characters; a last
    group of one or two bytes is padded with [=]. *)
Fixpoint encode (bytes : string) : string :=
  match bytes with
  | String (Ascii a0 a1 a2 a3 a4 a5 a6 a7)
      (String (Ascii b0 b1 b2 b3 b4 b5 b6 b7)
         (String (Ascii c0 c1 c2 c3 c4 c5 c6 c7) rest)) =>
      String (char_of_sextet (Ascii a2 a3 a4 a5 a6 a7 false false))
     (String (char_of_sextet (Ascii b4 b5 b6 b7 a0 a1 false false))
     (String (char_of_sextet (Ascii c6 c7 b0 b1 b2 b3 false false))
     (String (char_of_sextet (Ascii c0 c1 c2 c3 c4 c5 false false))
             (encode rest))))
  | String (Ascii a0 a1 a2 a3 a4 a5 a6 a7)
      (String (Ascii b0 b1 b2 b3 b4 b5 b6 b7) EmptyString) =>
      String (char_of_sextet (Ascii a2 a3 a4 a5 a6 a7 false false))
     (String (char_of_sextet (Ascii b4 b5 b6 b7 a0 a1 false false))
     (String (char_of_sextet (Ascii false false b0 b1 b2 b3 false false))
             "="))
  | String (Ascii a0 a1 a2 a3 a4 a5 a6 a7) EmptyString =>
      String (char_of_sextet (Ascii a2 a3 a4 a5 a6 a7 false false))
     (String (char_of_sextet (Ascii false false false false a0 a1 false false))
             "==")
  | EmptyString => ""
  end.

(** The 6-bit groups of a token.  The decoder of [Buffer.from(s, 'base64')]
    never fails: a character outside the alphabets is skipped and the first
    [=] ends the input.  (A token is taken to hold characters up to U+00FF:
    Node looks at the low byte of each UTF-16 unit, so that a character
    above U+00FF can count for one of the alphabets, where here the bytes of
    its UTF-8 form are skipped.) *)
Fixpoint sextets (s : string) : list ascii :=
  match s with
  | EmptyString => []
  | String c rest =>
      if Ascii.eqb c "=" then []
      else match unbase64 c with
           | Some v => v :: sextets rest
           | None => sextets rest
           end
  end.

(** Four groups give three bytes; three trailing groups give two bytes, two
    give one, and a single trailing group gives none. *)
Fixpoint bytes_of_sextets (l : list ascii) : string :=
  match l with
  | Ascii p0 p1 p2 p3 p4 p5 _ _ :: Ascii q0 q1 q2 q3 q4 q5 _ _
      :: Ascii r0 r1 r2 r3 r4 r5 _ _ :: Ascii s0 s1 s2 s3 s4 s5 _ _ :: rest =>
      String (Ascii q4 q5 p0 p1 p2 p3 p4 p5)
     (String (Ascii r2 r3 r4 r5 q0 q1 q2 q3)
     (String (Ascii s0 s1 s2 s3 s4 s5 r0 r1)
             (bytes_of_sextets rest)))
  | [Ascii p0 p1 p2 p3 p4 p5 _ _; Ascii q0 q1 q2 q3 q4 q5 _ _;
     Ascii r0 r1 r2 r3 r4 r5 _ _] =>
      String (Ascii q4 q5 p0 p1 p2 p3 p4 p5)
     (String (Ascii r2 r3 r4 r5 q0 q1 q2 q3) "")
  | [Ascii p0 p1 p2 p3 p4 p5 _ _; Ascii q0 q1 q2 q3 q4 q5 _ _] =>
      String (Ascii q4 q5 p0 p1 p2 p3 p4 p5) ""
  | _ => ""
  end.

(** [Buffer.from(token, 'base64')], as the bytes of the buffer. *)
Definition decode (token : string) : string :=
  bytes_of_sextets (sextets token).

End Base64.

(** ** [Buffer] *)

Module Buffer.

(** A buffer is its bytes. *)
Definition t : Type := string.

(** [Buffer.from(text)]: the UTF-8 bytes of the text, which is how text is
    carried here. *)
Definition from (text : string) : t := text.

(** [Buffer.from(token, 'base64')]. *)
Definition from_base64 (token : string) : t := Base64.decode token.

(** [buffer.toString('base64')]. *)
Definition toString_base64 (buffer : t) : string := Base64.encode buffer.

(** [buffer.toString('utf-8')].  Node replaces an ill-formed sequence by
    U+FFFD; here the bytes are kept.  The replacement neither adds nor
    removes an ASCII byte, and in JSON a byte that is not ASCII can only
    stand inside a string literal, so the same texts parse, to values of the
    same shape with the same ASCII keys. *)
Definition toString_utf8 (buffer : t) : string := buffer.

End Buffer.

(** ** JSON values, [JSON.stringify] and [JSON.parse] *)

Module Json.

(** The numbers of JavaScript that have no JSON literal of their own: NaN,
    Infinity, -Infinity, and -0 (which is written [0]). *)
Inductive special_number : Type := NaN | Infinity | NegInfinity | NegZero.

#[warnings="-register-all"]
Inductive json : Type :=
| JNull
| JBool (b : bool)
| JNum (n : Z)
| JFloat (literal : string)
| JStr (s : string)
| JArr (items : list json)
| JObj (members : list (string * json))
| JSpecial (n : special_number).

Definition dquote : ascii := "034"%char.
Definition backslash : ascii := "092"%char.

(** *** Objects: properties in creation order, one per key *)

(** Defining a property: an existing key keeps its place and takes the new
    value, a new key goes last.  (JavaScript lists the keys that are array
    indices first; reading a property does not depend on the order.) *)
Fixpoint obj_set (k : string) (v : json) (members : list (string * json))
  : list (string * json) :=
  match members with
  | [] => [(k, v)]
  | (k', v') :: rest =>
      if String.eqb k k' then (k, v) :: rest
      else (k', v') :: obj_set k v rest
  end.

Fixpoint obj_get (k : string) (members : list (string * json)) : option json :=
  match members with
  | [] => None
  | (k', v) :: rest => if String.eqb k k' then Some v else obj_get k rest
  end.

(** *** [JSON.stringify] *)

Definition hex_digit (n : nat) : ascii :=
  match String.get n "0123456789abcdef" with
  | Some c => c
  | None => "0"%char
  end.

(** QuoteJSONString, one character: the short escapes, [\u00xx] for the
    other control characters, everything else as it is. *)
Definition escape_char (c : ascii) : string :=
  let n := nat_of_ascii c in
  if (n =? 8)%nat then "\b"
  else if (n =? 9)%nat then "\t"
  else if (n =? 10)%nat then "\n"
  else if (n =? 12)%nat then "\f"
  else if (n =? 13)%nat then "\r"
  else if (n =? 34)%nat then String backslash (String dquote "")
  else if (n =? 92)%nat then "\\"
  else if (n <? 32)%nat then
    ("\u00" ++ String (hex_digit (n / 16)) (String (hex_digit (n mod 16)) ""))%string
  else String c "".

Fixpoint escape (s : string) : string :=
  match s with
  | EmptyString => ""
  | String c rest => (escape_char c ++ escape rest)%string
  end.

Definition quote (s : string) : string :=
  String dquote (escape s ++ String dquote "")%string.

(** An integer prints as its decimal digits, with a sign when negative. *)
Definition print_int (n : Z) : string :=
  match n with
  | Z0 => "0"
  | Zpos p => NilEmpty.string_of_uint (Pos.to_uint p)
  | Zneg p => String "-" (NilEmpty.string_of_uint (Pos.to_uint p))
  end.

Fixpoint join_commas (parts : list string) : string :=
  match parts with
  | [] => ""
  | [p] => p
  | p :: rest => (p ++ "," ++ join_commas rest)%string
  end.

(** [JSON.stringify(v)] without indentation: no white space is produced.
    NaN and the infinities are written [null], the negative zero [0]. *)
Fixpoint stringify (v : json) : string :=
  match v with
  | JNull => "null"
  | JBool true => "true"
  | JBool false => "false"
  | JNum n => print_int n
  | JFloat literal => literal
  | JStr s => quote s
  | JArr items => ("[" ++ join_commas (map stringify items) ++ "]")%string
  | JObj members =>
      ("{" ++ join_commas
                (map (fun kv => (quote (fst kv) ++ ":" ++ stringify (snd kv))%string)
                     members)
           ++ "}")%string
  | JSpecial NegZero => "0"
  | JSpecial _ => "null"
  end.

(** *** [JSON.parse] *)

Definition is_ws (c : ascii) : bool :=
  let n := nat_of_ascii c in
  (n =? 32)%nat || (n =? 9)%nat || (n =? 10)%nat || (n =? 13)%nat.

Fixpoint skip_ws (s : string) : string :=
  match s with
  | String c rest => if is_ws c then skip_ws rest else s
  | EmptyString => ""
  end.

Definition is_digit (c : ascii) : bool :=
  let n := nat_of_ascii c in (48 <=? n)%nat && (n <=? 57)%nat.

Definition cons_digit (c : ascii) (d : uint) : uint :=
  match uint_of_char c (Some d) with
  | Some u => u
  | None => d
  end.

(** The longest prefix of decimal digits, most significant first. *)
Fixpoint read_digits (s : string) : uint * string :=
  match s with
  | String c rest =>
      if is_digit c
      then let (d, rest') := read_digits rest in (cons_digit c d, rest')
      else (Nil, s)
  | EmptyString => (Nil, "")
  end.

(** The integer part of a number: [0], or digits that do not start with 0. *)
Definition valid_int_part (d : uint) : bool :=
  match d with
  | Nil => false
  | D0 Nil => true
  | D0 _ => false
  | _ => true
  end.

Definition read_sign (s : string) : bool * string :=
  match s with
  | String "-" rest => (true, rest)
  | _ => (false, s)
  end.

(** An optional fraction: a dot and at least one digit. *)
Definition read_fraction (s : string) : option (bool * string) :=
  match s with
  | String "." rest =>
      match read_digits rest with
      | (Nil, _) => None
      | (_, rest') => Some (true, rest')
      end
  | _ => Some (false, s)
  end.

(** An optional exponent: [e] or [E], an optional sign, at least one digit. *)
Definition read_exponent (s : string) : option (bool * string) :=
  let digits (r : string) :=
    match read_digits r with
    | (Nil, _) => None
    | (_, rest') => Some (true, rest')
    end in
  match s with
  | String c rest =>
      if Ascii.eqb c "e" || Ascii.eqb c "E" then
        match rest with
        | String s' rest' =>
            if Ascii.eqb s' "+" || Ascii.eqb s' "-" then digits rest'
            else digits rest
        | EmptyString => None
        end
      else Some (false, s)
  | EmptyString => Some (false, s)
  end.

Definition consumed (s rest : string) : string :=
  substring 0 (String.length s - String.length rest) s.

(** A number literal.  Without fraction and exponent it is an integer
    ([-0] being the negative zero); otherwise its text is kept. *)
Definition parse_number (s : string) : option (json * string) :=
  let (neg, s1) := read_sign s in
  let (d, s2) := read_digits s1 in
  if valid_int_part d then
    match read_fraction s2 with
    | Some (frac, s3) =>
        match read_exponent s3 with
        | Some (exp, s4) =>
            if frac || exp then Some (JFloat (consumed s s4), s4)
            else
              let n := Z.of_N (N.of_uint d) in
              if neg && (n =? 0) then Some (JSpecial NegZero, s4)
              else Some (JNum (if neg then - n else n), s4)
        | None => None
        end
    | None => None
    end
  else None.

Definition hex_value (c : ascii) : option N :=
  let n := nat_of_ascii c in
  if (48 <=? n)%nat && (n <=? 57)%nat then Some (N.of_nat (n - 48))
  else if (65 <=? n)%nat && (n <=? 70)%nat then Some (N.of_nat (n - 55))
  else if (97 <=? n)%nat && (n <=? 102)%nat then Some (N.of_nat (n - 87))
  else None.

Definition hex4 (h1 h2 h3 h4 : ascii) : option N :=
  match hex_value h1, hex_value h2, hex_value h3, hex_value h4 with
  | Some a, Some b, Some c, Some d => Some (((a * 16 + b) * 16 + c) * 16 + d)%N
  | _, _, _, _ => None
  end.

(** The UTF-8 bytes of a code point (a surrogate on its own is encoded the
    same way, on three bytes). *)
Definition utf8_bytes (cp : N) : string :=
  let byte (n : N) := ascii_of_N n in
  (if cp <? 128 then String (byte cp) ""
   else if cp <? 2048 then
     String (byte (192 + cp / 64)) (String (byte (128 + cp mod 64)) "")
   else if cp <? 65536 then
     String (byte (224 + cp / 4096))
       (String (byte (128 + (cp / 64) mod 64))
          (String (byte (128 + cp mod 64)) ""))
   else
     String (byte (240 + cp / 262144))
       (String (byte (128 + (cp / 4096) mod 64))
          (String (byte (128 + (cp / 64) mod 64))
             (String (byte (128 + cp mod 64)) ""))))%N.

Definition is_high_surrogate (u : N) : bool := (55296 <=? u)%N && (u <? 56320)%N.
Definition is_low_surrogate (u : N) : bool := (56320 <=? u)%N && (u <? 57344)%N.

Definition cons_string (p : string) (r : option (string * string))
  : option (string * string) :=
  match r with
  | Some (s, rest) => Some ((p ++ s)%string, rest)
  | None => None
  end.

(** The characters of a string literal after its opening quote, up to the
    closing quote.  A raw control character and an unknown escape are
    errors. *)
Fixpoint parse_chars (s : string) : option (string * string) :=
  match s with
  | EmptyString => None
  | String c rest =>
      if Ascii.eqb c dquote then Some ("", rest)
      else if Ascii.eqb c backslash then
        match rest with
        | String e rest1 =>
            if Ascii.eqb e dquote then cons_string (String dquote "") (parse_chars rest1)
            else if Ascii.eqb e backslash then cons_string "\" (parse_chars rest1)
            else if Ascii.eqb e "/" then cons_string "/" (parse_chars rest1)
            else if Ascii.eqb e "b" then cons_string (String "008" "") (parse_chars rest1)
            else if Ascii.eqb e "f" then cons_string (String "012" "") (parse_chars rest1)
            else if Ascii.eqb e "n" then cons_string (String "010" "") (parse_chars rest1)
            else if Ascii.eqb e "r" then cons_string (String "013" "") (parse_chars rest1)
            else if Ascii.eqb e "t" then cons_string (String "009" "") (parse_chars rest1)
            else if Ascii.eqb e "u" then
              match rest1 with
              | String h1 (String h2 (String h3 (String h4 rest2))) =>
                  match hex4 h1 h2 h3 h4 with
                  | Some u =>
                      if is_high_surrogate u then
                        match rest2 with
                        | String b2 (String u2 (String l1 (String l2
                            (String l3 (String l4 rest3))))) =>
                            match hex4 l1 l2 l3 l4 with
                            | Some lo =>
                                if Ascii.eqb b2 backslash && Ascii.eqb u2 "u"
                                   && is_low_surrogate lo
                                then cons_string
                                       (utf8_bytes (65536 + (u - 55296) * 1024
                                                    + (lo - 56320))%N)
                                       (parse_chars rest3)
                                else cons_string (utf8_bytes u) (parse_chars rest2)
                            | None => cons_string (utf8_bytes u) (parse_chars rest2)
                            end
                        | _ => cons_string (utf8_bytes u) (parse_chars rest2)
                        end
                      else cons_string (utf8_bytes u) (parse_chars rest2)
                  | None => None
                  end
              | _ => None
              end
            else None
        | EmptyString => None
        end
      else if (nat_of_ascii c <? 32)%nat then None
      else cons_string (String c "") (parse_chars rest)
  end.

Definition parse_literal (s : string) : option (json * string) :=
  match s with
  | String "t" (String "r" (String "u" (String "e" rest))) =>
      Some (JBool true, rest)
  | String "f" (String "a" (String "l" (String "s" (String "e" rest)))) =>
      Some (JBool false, rest)
  | String "n" (String "u" (String "l" (String "l" rest))) =>
      Some (JNull, rest)
  | _ => None
  end.

(** The rest of the text when it starts with [c]. *)
Definition expect (c : ascii) (s : string) : option string :=
  match s with
  | String c' rest => if Ascii.eqb c' c then Some rest else None
  | EmptyString => None
  end.

(** The recursive-descent parser.  [fuel] bounds the nesting of calls; every
    call consumes a character before it calls again, so the length of the
    text is enough (see [JSON_parse]). *)
Fixpoint parse_value (fuel : nat) (s : string) : option (json * string) :=
  match fuel with
  | O => None
  | S fuel' =>
      match skip_ws s with
      | EmptyString => None
      | String c rest =>
          if Ascii.eqb c "[" then
            match expect "]" (skip_ws rest) with
            | Some rest' => Some (JArr [], rest')
            | None =>
                match parse_elements fuel' rest with
                | Some (items, rest') => Some (JArr items, rest')
                | None => None
                end
            end
          else if Ascii.eqb c "{" then
            match expect "}" (skip_ws rest) with
            | Some rest' => Some (JObj [], rest')
            | None =>
                match parse_members fuel' rest with
                | Some (members, rest') =>
                    Some (JObj (fold_left (fun o kv => obj_set (fst kv) (snd kv) o)
                                          members []), rest')
                | None => None
                end
            end
          else if Ascii.eqb c dquote then
            match parse_chars rest with
            | Some (str, rest') => Some (JStr str, rest')
            | None => None
            end
          else if Ascii.eqb c "-" || is_digit c then parse_number (String c rest)
          else parse_literal (String c rest)
      end
  end

with parse_elements (fuel : nat) (s : string) : option (list json * string) :=
  match fuel with
  | O => None
  | S fuel' =>
      match parse_value fuel' s with
      | Some (v, rest) =>
          match expect "," (skip_ws rest) with
          | Some rest' =>
              match parse_elements fuel' rest' with
              | Some (items, rest'') => Some (v :: items, rest'')
              | None => None
              end
          | None =>
              match expect "]" (skip_ws rest) with
              | Some rest' => Some ([v], rest')
              | None => None
              end
          end
      | None => None
      end
  end

with parse_members (fuel : nat) (s : string)
  : option (list (string * json) * string) :=
  match fuel with
  | O => None
  | S fuel' =>
      match expect dquote (skip_ws s) with
      | Some rest =>
          match parse_chars rest with
          | Some (key, rest1) =>
              match expect ":" (skip_ws rest1) with
              | Some rest2 =>
                  match parse_value fuel' rest2 with
                  | Some (v, rest3) =>
                      match expect "," (skip_ws rest3) with
                      | Some rest4 =>
                          match parse_members fuel' rest4 with
                          | Some (members, rest5) =>
                              Some ((key, v) :: members, rest5)
                          | None => None
                          end
                      | None =>
                          match expect "}" (skip_ws rest3) with
                          | Some rest4 => Some ([(key, v)], rest4)
                          | None => None
                          end
                      end
                  | None => None
                  end
              | None => None
              end
          | None => None
          end
      | None => None
      end
  end.

(** [JSON.parse(text)]: one value, white space around it, nothing else.
    [None] stands for the SyntaxError it throws. *)
Definition JSON_parse (text : string) : option json :=
  match parse_value (S (String.length text)) text with
  | Some (v, rest) =>
      match skip_ws rest with
      | EmptyString => Some v
      | _ => None
      end
  | None => None
  end.

End Json.

Import Json.

(** ** Exceptions, the console and the engine *)

(** A JavaScript [Error] object: its [name] and its [message]. *)
Record JsError : Type := { err_name : string; err_message : string }.

(** [new Error(message)]. *)
Definition new_Error (message : string) : JsError :=
  {| err_name := "Error"; err_message := message |}.

(** The outcome of a call: a value, or an exception in flight. *)
Inductive Outcome (A : Type) : Type :=
| Returned (a : A)
| Thrown (e : JsError).
Arguments Returned {A} a.
Arguments Thrown {A} e.

(** ** types.ts *)

Inductive SortOrder : Type := ASC | DESC.
Inductive LogicalOperator : Type := AND | OR.

(** [CursorSearchInput['sort']]. *)
Record SortInput : Type := {
  name : option SortOrder;
  price : option SortOrder;
  createdAt : option SortOrder
}.

(** [CursorSearchInput]; an optional field that is absent (or null) is
    [None].  [take] is a GraphQL [Int]. *)
Record CursorSearchInput : Type := {
  term : option string;
  facetValueIds : option (list string);
  facetValueOperator : option LogicalOperator;
  collectionId : option string;
  collectionSlug : option string;
  groupByProduct : option bool;
  take : option Z;
  cursor : option string;
  sort : option SortInput
}.

(** [CursorSearchResult<T>]. *)
Record CursorSearchResult (T : Type) : Type := {
  items : list T;
  totalItems : Z;
  hasMore : bool;
  nextCursor : option string;
  prevCursor : option string
}.
Arguments items {T} _.
Arguments totalItems {T} _.
Arguments hasMore {T} _.
Arguments nextCursor {T} _.
Arguments prevCursor {T} _.

(** [SearchAfterValues]. *)
Record SearchAfterValues : Type := {
  values : list json;
  sortFields : list string
}.

(** ** The search engine's interface *)

(** The query DSL, as far as [buildQuery] uses it.  In a [bool] query an
    absent occurrence list is the empty list. *)
#[warnings="-register-all"]
Inductive Query : Type :=
| match_all
| multi_match (query : string) (fields : list string) (type fuzziness : string)
| term_query (field value : string)
| bool_query (must filter should : list Query).

Inductive EsOrder : Type := asc | desc.

(** One entry of the sort array, [{ field: { order } }]. *)
Record SortClause : Type := { sort_field : string; order : EsOrder }.

(** The [_source] of an indexed variant. *)
Module Source.
Record t : Type := {
  productId : string;
  productName : string;
  slug : string;
  description : string;
  productAssetId : option string;
  productPreview : string;
  productPriceWithTaxMin : option Z;
  productPriceWithTaxMax : option Z;
  priceWithTax : Z;
  currencyCode : string;
  facetValueIds : option (list string);
  collectionIds : option (list string)
}.
End Source.

(** A hit: the source, the score and the values of the sort fields. *)
Module Hit.
Record t : Type := {
  _source : Source.t;
  _score : json;
  sort : option (list json)
}.
End Hit.

(** [response.hits.total]: a number, an object with a [value], or absent. *)
Inductive HitsTotal : Type :=
| TotalNumber (n : Z)
| TotalObject (value : Z)
| TotalAbsent.

Record SearchResponse : Type := {
  hits : list Hit.t;
  total : HitsTotal
}.

(** The search request as the engine receives it. *)
Module Request.
Record t : Type := {
  index : string;
  query : Query;
  sort : list SortClause;
  size : Z;
  search_after : option json;
  track_total_hits : bool
}.
End Request.

(** The engine: its answer to a request, given the requests it has already
    received (so that asking twice need not give the same answer). *)
Definition Engine : Type :=
  list Request.t -> Request.t -> Outcome SearchResponse.

(** What the service can observe and change: the requests sent to the
    engine and the lines written by [console.error]. *)
Record World : Type := {
  engine_calls : list Request.t;
  console : list (string * JsError)
}.

Definition M (A : Type) : Type := World -> Outcome A * World.

Definition ret {A} (a : A) : M A := fun w => (Returned a, w).

Definition throw {A} (e : JsError) : M A := fun w => (Thrown e, w).

Definition bind {A B} (m : M A) (k : A -> M B) : M B :=
  fun w =>
    match m w with
    | (Returned a, w') => k a w'
    | (Thrown e, w') => (Thrown e, w')
    end.

(** A call that may throw and touches nothing else. *)
Definition lift {A} (o : Outcome A) : M A := fun w => (o, w).

Notation "x <- m ;; k" := (bind m (fun x => k))
  (at level 61, m at next level, right associativity).

(** [try { body } catch (error) { handler }]. *)
Definition try_catch {A} (body : M A) (handler : JsError -> M A) : M A :=
  fun w =>
    match body w with
    | (Returned a, w') => (Returned a, w')
    | (Thrown e, w') => handler e w'
    end.

Definition console_error (label : string) (e : JsError) : M unit :=
  fun w =>
    (Returned tt,
     {| engine_calls := engine_calls w;
        console := console w ++ [(label, e)] |}).

(** The mapped items, in Vendure's [SearchResult] format. *)
Inductive PriceWithTax : Type :=
| SinglePrice (value : Z)
| PriceRange (min max : Z).

Record ProductAsset : Type := { id : string; preview : string }.

Module SearchResult.
Record t : Type := {
  productId : string;
  productName : string;
  slug : string;
  description : string;
  productAsset : option ProductAsset;
  priceWithTax : PriceWithTax;
  currencyCode : string;
  facetValueIds : list string;
  collectionIds : list string;
  score : json
}.
End SearchResult.

(** ** Values of JavaScript expressions *)

(** [x || d] on numbers: [undefined] and [0] are falsy. *)
Definition or_number (x : option Z) (d : Z) : Z :=
  match x with
  | None => d
  | Some n => if n =? 0 then d else n
  end.

(** A string is truthy when it is present and not empty. *)
Definition truthy_string (x : option string) : bool :=
  match x with
  | None => false
  | Some s => negb (String.eqb s "")
  end.

(** [x || []]. *)
Definition or_empty {A} (x : option (list A)) : list A :=
  match x with
  | None => []
  | Some l => l
  end.

(** [l.slice(0, e)]: a negative [e] counts from the end. *)
Definition slice0 {A} (l : list A) (e : Z) : list A :=
  let len := Z.of_nat (List.length l) in
  let k := if e <? 0 then Z.max (len + e) 0 else Z.min e len in
  firstn (Z.to_nat k) l.

(** The value of a property read: undefined, a JSON value, or a built-in
    function found on a prototype. *)
Inductive JsValue : Type :=
| JsUndefined
| JsJson (v : json)
| JsBuiltin (function_name : string).

(** [searchAfter?.values].  Of the values [JSON.parse] returns, an object
    gives its own property, an array gives [Array.prototype.values], and
    null, booleans, numbers and strings give undefined. *)
Definition optional_values (searchAfter : option json) : JsValue :=
  match searchAfter with
  | None => JsUndefined
  | Some (JObj members) =>
      match obj_get "values" members with
      | Some v => JsJson v
      | None => JsUndefined
      end
  | Some (JArr _) => JsBuiltin "Array.prototype.values"
  | Some _ => JsUndefined
  end.

(** A property of the request body.  The client serialises the body with
    [JSON.stringify], which leaves out a property whose value is undefined
    or a function. *)
Definition body_property (v : JsValue) : option json :=
  match v with
  | JsJson j => Some j
  | JsUndefined | JsBuiltin _ => None
  end.

(** ** [DeepPaginationService] *)

Section DeepPaginationService.

(** The constructor's parameters. *)
Variable client : Engine.
Variable indexPrefix : string.

(** [this.client.search(request)]. *)
Definition client_search (request : Request.t) : M SearchResponse :=
  fun w =>
    (client (engine_calls w) request,
     {| engine_calls := engine_calls w ++ [request];
        console := console w |}).

Definition toLowerCase (o : SortOrder) : EsOrder :=
  match o with
  | ASC => asc
  | DESC => desc
  end.

(** The entries pushed under [if (sortInput)]: [name], then [price]. *)
Definition requested_sort (sortInput : option SortInput) : list SortClause :=
  match sortInput with
  | Some si =>
      (match name si with
       | Some o => [{| sort_field := "productName.keyword"; order := toLowerCase o |}]
       | None => []
       end)
      ++
      (match price si with
       | Some o => [{| sort_field := "priceWithTax"; order := toLowerCase o |}]
       | None => []
       end)
  | None => []
  end.

(** [buildSort]. *)
Definition buildSort (sortInput : option SortInput) : list SortClause :=
  let sort := requested_sort sortInput in
  let sort :=
    if negb (existsb (fun s => String.eqb (sort_field s) "productId") sort)
    then sort ++ [{| sort_field := "productId"; order := asc |}]
    else sort in
  sort ++ [{| sort_field := "productVariantId"; order := asc |}].

(** The entry pushed on [must] for the text search. *)
Definition term_clauses (input : CursorSearchInput) : list Query :=
  match term input with
  | Some t =>
      if truthy_string (Some t)
      then [multi_match t ["productName^3"; "description"; "sku^2"]
                        "best_fields" "AUTO"]
      else []
  | None => []
  end.

(** The entry pushed on [filter] for the facet values. *)
Definition facet_clauses (input : CursorSearchInput) : list Query :=
  match facetValueIds input with
  | Some ids =>
      if (0 <? List.length ids)%nat then
        let terms := map (fun id => term_query "facetValueIds" id) ids in
        match facetValueOperator input with
        | Some AND => [bool_query terms [] []]
        | _ => [bool_query [] [] terms]
        end
      else []
  | None => []
  end.

(** The entry pushed on [filter] for the collection. *)
Definition collection_clauses (input : CursorSearchInput) : list Query :=
  match collectionId input with
  | Some c =>
      if truthy_string (Some c) then [term_query "collectionIds" c] else []
  | None => []
  end.

(** [buildQuery]. *)
Definition buildQuery (input : CursorSearchInput) : Query :=
  let must := term_clauses input in
  let filter := facet_clauses input ++ collection_clauses input in
  let must := if (List.length must =? 0)%nat then must ++ [match_all] else must in
  bool_query must filter [].

(** [encodeCursor]. *)
Definition json_of_SearchAfterValues (searchAfter : SearchAfterValues) : json :=
  JObj [("values", JArr (values searchAfter));
        ("sortFields", JArr (map JStr (sortFields searchAfter)))].

Definition encodeCursor (searchAfter : SearchAfterValues) : string :=
  Buffer.toString_base64
    (Buffer.from (stringify (json_of_SearchAfterValues searchAfter))).

(** [decodeCursor].  The result is whatever JSON value the token holds: the
    return type [SearchAfterValues] is not checked at run time. *)
Definition decodeCursor (cursor : string) : Outcome json :=
  match JSON_parse (Buffer.toString_utf8 (Buffer.from_base64 cursor)) with
  | Some v => Returned v
  | None => Thrown (new_Error "Invalid cursor format")
  end.

(** [Math.min(input.take || 100, 1000)]. *)
Definition effective_take (input : CursorSearchInput) : Z :=
  Z.min (or_number (take input) 100) 1000.

(** [input.cursor ? this.decodeCursor(input.cursor) : undefined]. *)
Definition decode_input_cursor (input : CursorSearchInput)
  : Outcome (option json) :=
  match cursor input with
  | Some c =>
      if truthy_string (Some c) then
        match decodeCursor c with
        | Returned v => Returned (Some v)
        | Thrown e => Thrown e
        end
      else Returned None
  | None => Returned None
  end.

(** The argument of [this.client.search]. *)
Definition search_request (input : CursorSearchInput)
  (searchAfter : option json) : Request.t :=
  {| Request.index := (indexPrefix ++ "variants*")%string;
     Request.query := buildQuery input;
     Request.sort := buildSort (sort input);
     Request.size := effective_take input + 1;
     Request.search_after := body_property (optional_values searchAfter);
     Request.track_total_hits := true |}.

Definition total_items (t : HitsTotal) : Z :=
  match t with
  | TotalNumber n => n
  | TotalObject v => or_number (Some v) 0
  | TotalAbsent => 0
  end.

(** The projection of one hit. *)
Definition map_hit (hit : Hit.t) : SearchResult.t :=
  let source := Hit._source hit in
  let priceMin :=
    or_number (Source.productPriceWithTaxMin source) (Source.priceWithTax source) in
  let priceMax :=
    or_number (Source.productPriceWithTaxMax source) (Source.priceWithTax source) in
  {| SearchResult.productId := Source.productId source;
     SearchResult.productName := Source.productName source;
     SearchResult.slug := Source.slug source;
     SearchResult.description := Source.description source;
     SearchResult.productAsset :=
       match Source.productAssetId source with
       | Some a =>
           if truthy_string (Some a)
           then Some {| id := a; preview := Source.productPreview source |}
           else None
       | None => None
       end;
     SearchResult.priceWithTax :=
       if priceMin =? priceMax then SinglePrice priceMin
       else PriceRange priceMin priceMax;
     SearchResult.currencyCode := Source.currencyCode source;
     SearchResult.facetValueIds := or_empty (Source.facetValueIds source);
     SearchResult.collectionIds := or_empty (Source.collectionIds source);
     SearchResult.score := Hit._score hit |}.

(** The retained hits: [hasMore ? hits.slice(0, take) : hits]. *)
Definition retained (take : Z) (hits : list Hit.t) : list Hit.t :=
  if Z.of_nat (List.length hits) >? take then slice0 hits take else hits.

(** The cursor of the next page, from the last retained hit. *)
Definition next_cursor (hasMore : bool) (items : list Hit.t)
  (sort : list SortClause) : option string :=
  if hasMore && (0 <? List.length items)%nat then
    match nth_error items (List.length items - 1) with
    | Some lastHit =>
        Some (encodeCursor {| values := or_empty (Hit.sort lastHit);
                              sortFields := map sort_field sort |})
    | None => None
    end
  else None.

(** The body of the [try] block after the engine has answered. *)
Definition page_of_response (take : Z) (sort : list SortClause)
  (response : SearchResponse) : CursorSearchResult SearchResult.t :=
  let hits := hits response in
  let totalItems := total_items (total response) in
  let hasMore := Z.of_nat (List.length hits) >? take in
  let items := retained take hits in
  let nextCursor := next_cursor hasMore items sort in
  {| items := map map_hit items;
     totalItems := totalItems;
     hasMore := hasMore;
     nextCursor := nextCursor;
     prevCursor := None |}.

(** [cursorSearch].  The cursor is decoded before the [try] block; the
    engine is called once inside it; the [catch] logs and rethrows. *)
Definition cursorSearch (input : CursorSearchInput)
  : M (CursorSearchResult SearchResult.t) :=
  let take := effective_take input in
  searchAfter <- lift (decode_input_cursor input) ;;
  let sort := buildSort (sort input) in
  try_catch
    (response <- client_search (search_request input searchAfter) ;;
     ret (page_of_response take sort response))
    (fun error =>
       _ <- console_error "[DeepPagination] Search failed:" error ;;
       throw error).

End DeepPaginationService.

(** ** The meaning of a query *)

Section QuerySemantics.

(** Whether a full-text query matches a document is the engine's business. *)
Variable text_match : string -> list string -> Source.t -> bool.

(** The values of a keyword field of a document. *)
Definition keyword_values (field : string) (d : Source.t) : list string :=
  if String.eqb field "facetValueIds" then or_empty (Source.facetValueIds d)
  else if String.eqb field "collectionIds" then or_empty (Source.collectionIds d)
  else [].

(** Which documents a query selects: every [must] and [filter] clause has to
    match; when there are [should] clauses and neither [must] nor [filter],
    at least one of them has to match. *)
Fixpoint matches (d : Source.t) (q : Query) : bool :=
  match q with
  | match_all => true
  | multi_match text fields _ _ => text_match text fields d
  | term_query field value => existsb (String.eqb value) (keyword_values field d)
  | bool_query must filter should =>
      forallb (matches d) must && forallb (matches d) filter
      && match must, filter, should with
         | [], [], _ :: _ => existsb (matches d) should
         | _, _, _ => true
         end
  end.

End QuerySemantics.

(** ** Predicates used in the statements *)

(** The scalar values of a sort tuple: null, booleans, integers, strings. *)
Definition scalar (v : json) : bool :=
  match v with
  | JNull | JBool _ | JNum _ | JStr _ => true
  | JFloat _ | JArr _ | JObj _ | JSpecial _ => false
  end.

(** The text does not go on with a digit. *)
Definition no_digit_head (rest : string) : Prop :=
  match rest with
  | String c _ => is_digit c = false
  | EmptyString => True
  end.

(** What may follow a value inside an array or an object. *)
Definition delimited (rest : string) : Prop :=
  exists r, rest = String "," r \/ rest = String "]" r \/ rest = String "}" r.

(** What may follow a value: nothing, or a delimiter. *)
Definition terminated (rest : string) : Prop :=
  rest = ""%string \/ delimited rest.

(** A value that [JSON.stringify] prints and [JSON.parse] reads back as it
    is: no number kept by its text, no key twice in an object. *)
Fixpoint printable (v : json) : Prop :=
  match v with
  | JNull | JBool _ | JNum _ | JStr _ => True
  | JFloat _ | JSpecial _ => False
  | JArr items =>
      (fix all (l : list json) : Prop :=
         match l with
         | [] => True
         | x :: r => printable x /\ all r
         end) items
  | JObj members =>
      NoDup (map fst members)
      /\ (fix all (l : list (string * json)) : Prop :=
            match l with
            | [] => True
            | kv :: r => printable (snd kv) /\ all r
            end) members
  end.

(** The text is the JSON literal of a number with a fraction or an
    exponent, and nothing else. *)
Definition float_literal (text : string) : bool :=
  match parse_number text with
  | Some (JFloat _, EmptyString) => true
  | _ => false
  end.

(** As [printable], the numbers held by their literal included. *)
Fixpoint writable (v : json) : Prop :=
  match v with
  | JNull | JBool _ | JNum _ | JStr _ => True
  | JFloat literal => float_literal literal = true
  | JSpecial _ => False
  | JArr items =>
      (fix all (l : list json) : Prop :=
         match l with
         | [] => True
         | x :: r => writable x /\ all r
         end) items
  | JObj members =>
      NoDup (map fst members)
      /\ (fix all (l : list (string * json)) : Prop :=
            match l with
            | [] => True
            | kv :: r => writable (snd kv) /\ all r
            end) members
  end.

(** [Number.isSafeInteger]: the integers of which a double holds each one
    exactly, [Number.MAX_SAFE_INTEGER] being 2^53 - 1. *)
Definition isSafeInteger (n : Z) : bool := Z.abs n <=? 9007199254740991.

(** The longest prefix of digits, as text. *)
Fixpoint digits_prefix (s : string) : string * string :=
  match s with
  | String c rest =>
      if is_digit c
      then let (d, r) := digits_prefix rest in (String c d, r)
      else ("", s)
  | EmptyString => ("", "")
  end.

Fixpoint ends_with_zero (s : string) : bool :=
  match s with
  | EmptyString => false
  | String c EmptyString => Ascii.eqb c "0"
  | String _ rest => ends_with_zero rest
  end.

Fixpoint leading_zeros (s : string) : nat :=
  match s with
  | String c rest => if Ascii.eqb c "0" then S (leading_zeros rest) else O
  | EmptyString => O
  end.

(** The literal has the form in which JavaScript prints a number that is
    not an integer below 10^21 (Number::toString): at most 17 significant
    digits and no zero at the end of the fraction; either the decimal
    notation, with at most five zeros after [0.], or one digit that is not
    0, the rest as fraction, [e], a sign and an exponent without leading
    zero that is at least 21, or at most -7. *)
Definition canonical_literal (text : string) : bool :=
  float_literal text
  && let (int, r1) := digits_prefix (snd (read_sign text)) in
     let (frac, r2) :=
       match r1 with
       | String c r => if Ascii.eqb c "." then digits_prefix r else ("", r1)
       | EmptyString => ("", "")
       end in
     let all := (int ++ frac)%string in
     negb (ends_with_zero frac)
     && (String.length all - leading_zeros all <=? 17)%nat
     && match r2 with
        | EmptyString =>
            (String.length int <=? 21)%nat
            && (if String.eqb int "0" then (leading_zeros frac <=? 5)%nat
                else true)
        | String e r3 =>
            Ascii.eqb e "e" && (String.length int =? 1)%nat
            && negb (String.eqb int "0")
            && match r3 with
               | String sign exponent =>
                   let magnitude := N.of_uint (fst (read_digits exponent)) in
                   (leading_zeros exponent =? 0)%nat
                   && (if Ascii.eqb sign "+" then (21 <=? magnitude)%N
                       else Ascii.eqb sign "-" && (7 <=? magnitude)%N)
               | EmptyString => false
               end
        end.

(** The scalar values a program can put in a sort tuple: null, booleans,
    strings and numbers, the numbers that JSON cannot write included.  A
    finite number is an integer that a double holds exactly, or the literal
    JavaScript prints for a number that is not such an integer. *)
Definition js_scalar (v : json) : bool :=
  match v with
  | JNull | JBool _ | JStr _ | JSpecial _ => true
  | JNum n => isSafeInteger n
  | JFloat literal => canonical_literal literal
  | JArr _ | JObj _ => false
  end.

(** What is left of a scalar once written by [JSON.stringify]: NaN and the
    infinities are written [null], the negative zero [0]. *)
Definition as_written (v : json) : json :=
  match v with
  | JSpecial NegZero => JNum 0
  | JSpecial _ => JNull
  | _ => v
  end.

(** The text of one member of an object. *)
Definition member_text (kv : string * json) : string :=
  (quote (fst kv) ++ ":" ++ stringify (snd kv))%string.

(** A value reads back from its text, whatever follows it. *)
Definition reads_back (v : json) : Prop :=
  forall fuel rest,
    terminated rest ->
    (String.length (stringify v) <= fuel)%nat ->
    parse_value fuel (stringify v ++ rest) = Some (v, rest).

(** A parser is adequate at [fuel] when whatever it parses with that fuel
    it has consumed at least one character of, and parses as well with any
    fuel that is at least the number of characters consumed. *)
Definition adequate {A : Type} (parse : nat -> string -> option (A * string))
  (fuel : nat) : Prop :=
  forall s a r,
    parse fuel s = Some (a, r) ->
    (String.length r < String.length s)%nat
    /\ forall fuel',
         (String.length s - String.length r <= fuel')%nat ->
         parse fuel' s = Some (a, r).

(** The request with another page size, and the request without a cursor. *)
Definition set_take (input : CursorSearchInput) (t : option Z)
  : CursorSearchInput :=
  {| term := term input;
     facetValueIds := facetValueIds input;
     facetValueOperator := facetValueOperator input;
     collectionId := collectionId input;
     collectionSlug := collectionSlug input;
     groupByProduct := groupByProduct input;
     take := t;
     cursor := cursor input;
     sort := sort input |}.

Definition set_cursor (input : CursorSearchInput) (c : option string)
  : CursorSearchInput :=
  {| term := term input;
     facetValueIds := facetValueIds input;
     facetValueOperator := facetValueOperator input;
     collectionId := collectionId input;
     collectionSlug := collectionSlug input;
     groupByProduct := groupByProduct input;
     take := take input;
     cursor := c;
     sort := sort input |}.

(** The token holds JSON that is not an object with a [values] member. *)
Definition lacks_values (v : json) : Prop :=
  match v with
  | JObj members => obj_get "values" members = None
  | _ => True
  end.

(** What the three groups of [CursorSearchInput] ask of a document, in the
    words of the specification: a group that is absent asks nothing, the
    facet values are combined by the caller's operator, and the groups are
    combined by a conjunction. *)
Section SelectedBy.

Variable text_match : string -> list string -> Source.t -> bool.

Definition text_group (input : CursorSearchInput) (d : Source.t) : bool :=
  match term input with
  | Some t =>
      if String.eqb t "" then true
      else text_match t ["productName^3"; "description"; "sku^2"] d
  | None => true
  end.

Definition has_facet (d : Source.t) (id : string) : bool :=
  existsb (String.eqb id) (or_empty (Source.facetValueIds d)).

Definition facet_group (input : CursorSearchInput) (d : Source.t) : bool :=
  match facetValueIds input with
  | Some (id :: ids) =>
      match facetValueOperator input with
      | Some AND => forallb (has_facet d) (id :: ids)
      | Some OR | None => existsb (has_facet d) (id :: ids)
      end
  | Some [] | None => true
  end.

Definition collection_group (input : CursorSearchInput) (d : Source.t) : bool :=
  match collectionId input with
  | Some c =>
      if String.eqb c "" then true
      else existsb (String.eqb c) (or_empty (Source.collectionIds d))
  | None => true
  end.

Definition selected_by (input : CursorSearchInput) (d : Source.t) : bool :=
  text_group input d && facet_group input d && collection_group input d.

End SelectedBy.

(** ** Data for the examples *)

Definition empty_world : World := {| engine_calls := []; console := [] |}.

(** The request of a first page, nothing asked. *)
Definition first_page : CursorSearchInput :=
  {| term := None; facetValueIds := None; facetValueOperator := None;
     collectionId := None; collectionSlug := None; groupByProduct := None;
     take := None; cursor := None; sort := None |}.

Definition sort_by (n p : option SortOrder) : option SortInput :=
  Some {| name := n; price := p; createdAt := None |}.

Definition set_sort (input : CursorSearchInput) (s : option SortInput)
  : CursorSearchInput :=
  {| term := term input;
     facetValueIds := facetValueIds input;
     facetValueOperator := facetValueOperator input;
     collectionId := collectionId input;
     collectionSlug := collectionSlug input;
     groupByProduct := groupByProduct input;
     take := take input;
     cursor := cursor input;
     sort := s |}.

(** A variant of the catalogue, with the sort values the engine attaches
    when the sort is by name. *)
Definition variant (pname pid vid : string) (cents : Z) : Hit.t :=
  {| Hit._source :=
       {| Source.productId := pid;
          Source.productName := pname;
          Source.slug := pname;
          Source.description := "";
          Source.productAssetId := None;
          Source.productPreview := "";
          Source.productPriceWithTaxMin := None;
          Source.productPriceWithTaxMax := None;
          Source.priceWithTax := cents;
          Source.currencyCode := "USD";
          Source.facetValueIds := None;
          Source.collectionIds := None |};
     Hit._score := JNull;
     Hit.sort := Some [JStr pname; JStr pid; JStr vid] |}.

Definition catalogue : list Hit.t :=
  [variant "apple" "1" "11" 300; variant "banana" "2" "21" 100;
   variant "cherry" "3" "31" 200].

Definition scalar_eqb (a b : json) : bool :=
  match a, b with
  | JNull, JNull => true
  | JBool x, JBool y => Bool.eqb x y
  | JNum x, JNum y => x =? y
  | JStr x, JStr y => String.eqb x y
  | _, _ => false
  end.

Fixpoint tuple_eqb (a b : list json) : bool :=
  match a, b with
  | [], [] => true
  | x :: a', y :: b' => scalar_eqb x y && tuple_eqb a' b'
  | _, _ => false
  end.

(** The hits that come after the one whose sort values are [marker]. *)
Fixpoint after_marker (marker : list json) (docs : list Hit.t) : list Hit.t :=
  match docs with
  | [] => []
  | h :: rest =>
      if tuple_eqb (or_empty (Hit.sort h)) marker then rest
      else after_marker marker rest
  end.

(** An engine over a fixed list of hits, already in order: it refuses a
    negative size, resumes after the marker and returns at most [size]
    hits. *)
Definition static_engine (docs : list Hit.t) : Engine :=
  fun _ request =>
    if Request.size request <? 0 then
      Thrown {| err_name := "ResponseError";
                err_message := "[size] parameter cannot be negative" |}
    else
      let candidates :=
        match Request.search_after request with
        | Some (JArr marker) => after_marker marker docs
        | _ => docs
        end in
      Returned {| hits := firstn (Z.to_nat (Request.size request)) candidates;
                  total := TotalObject (Z.of_nat (List.length docs)) |}.

(** An engine that is down. *)
Definition failing_engine (e : JsError) : Engine := fun _ _ => Thrown e.

Definition timeout_error : JsError :=
  {| err_name := "TimeoutError"; err_message := "Request timed out" |}.

(** The two entries [buildSort] always ends with. *)
Definition tiebreakers : list SortClause :=
  [{| sort_field := "productId"; order := asc |};
   {| sort_field := "productVariantId"; order := asc |}].

(** A first page of two items, by name. *)
Definition two_by_name : CursorSearchInput :=
  set_sort (set_take first_page (Some 2)) (sort_by (Some ASC) None).

(** The same request by descending price, with a cursor. *)
Definition by_price_desc_with (token : string) : CursorSearchInput :=
  set_cursor (set_sort two_by_name (sort_by None (Some DESC))) (Some token).

(** A sort tuple with every kind of scalar. *)
Definition sample_tuple : SearchAfterValues :=
  {| values := [JStr "banana"; JNum (-12); JNull; JBool true; JNum 0];
     sortFields := ["productName.keyword"; "productId"; "productVariantId"] |}.

(** A sort tuple with every kind of number. *)
Definition number_tuple : SearchAfterValues :=
  {| values := [JNum 9007199254740991; JNum (-42); JFloat "19.99";
                JFloat "-2.5e-7"; JFloat "1e+21"; JSpecial NaN;
                JSpecial Infinity; JSpecial NegInfinity; JSpecial NegZero;
                JStr "product-123"; JBool false; JNull];
     sortFields := ["priceWithTax"; "productId"] |}.

(** A variant with the sort values the engine attaches when the sort is by
    price. *)
Definition priced (cents : Z) (pid vid : string) : Hit.t :=
  {| Hit._source :=
       {| Source.productId := pid;
          Source.productName := pid;
          Source.slug := pid;
          Source.description := "";
          Source.productAssetId := None;
          Source.productPreview := "";
          Source.productPriceWithTaxMin := None;
          Source.productPriceWithTaxMax := None;
          Source.priceWithTax := cents;
          Source.currencyCode := "USD";
          Source.facetValueIds := None;
          Source.collectionIds := None |};
     Hit._score := JNull;
     Hit.sort := Some [JNum cents; JStr pid; JStr vid] |}.

(** Five documents with the prices 1, 2, 2, 3, 3. *)
Definition five_prices : list Hit.t :=
  [priced 1 "a" "a1"; priced 2 "b" "b1"; priced 2 "c" "c1";
   priced 3 "d" "d1"; priced 3 "e" "e1"].

(** Pages of two items, by ascending price. *)
Definition two_by_price (token : option string) : CursorSearchInput :=
  set_cursor (set_sort (set_take first_page (Some 2)) (sort_by None (Some ASC)))
             token.

(** What a caller looks at: the products, [hasMore] and the cursor. *)
Definition page_of (r : Outcome (CursorSearchResult SearchResult.t) * World)
  : list string * bool * option string :=
  match fst r with
  | Returned p => (map SearchResult.productId (items p), hasMore p, nextCursor p)
  | Thrown _ => ([], false, None)
  end.

Definition fetch (token : option string) : list string * bool * option string :=
  page_of (cursorSearch (static_engine five_prices) "gbros" (two_by_price token)
                        empty_world).

(** ** Following the cursors *)

(** The engine's side of the bargain, for the documents [docs] that the
    query [query] selects in the index [index], in the order of the sort
    [srt]: to a request for that index, that query and that sort, whatever
    its size, the engine gives the first [size] documents when the request
    has no marker, and the first [size] documents after the document at
    position [k] when the marker is the sort values of that document,
    whatever requests came before (the index does not change meanwhile).
    Nothing is asked of its answers to other requests. *)
Definition engine_over (index : string) (query : Query) (srt : list SortClause)
  (docs : list Hit.t) (engine : Engine) : Prop :=
  forall history request,
    Request.index request = index ->
    Request.query request = query ->
    Request.sort request = srt ->
    0 <= Request.size request ->
    (Request.search_after request = None ->
     exists t,
       engine history request
       = Returned {| hits := firstn (Z.to_nat (Request.size request)) docs;
                     total := t |})
    /\ (forall k h,
          nth_error docs k = Some h ->
          Request.search_after request = Some (JArr (or_empty (Hit.sort h))) ->
          exists t,
            engine history request
            = Returned {| hits := firstn (Z.to_nat (Request.size request))
                                         (skipn (S k) docs);
                          total := t |}).

(** *** An engine that selects and sorts *)

(** A document of the variant index: the fields the service reads, and the
    id of the variant. *)
Record Document : Type := {
  doc_source : Source.t;
  doc_productVariantId : string
}.

(** The value of a sort field in a document. *)
Definition sort_value (d : Document) (field : string) : json :=
  if String.eqb field "productName.keyword"
  then JStr (Source.productName (doc_source d))
  else if String.eqb field "priceWithTax"
  then JNum (Source.priceWithTax (doc_source d))
  else if String.eqb field "productId"
  then JStr (Source.productId (doc_source d))
  else if String.eqb field "productVariantId"
  then JStr (doc_productVariantId d)
  else JNull.

Definition hit_of (srt : list SortClause) (d : Document) : Hit.t :=
  {| Hit._source := doc_source d;
     Hit._score := JNull;
     Hit.sort := Some (map (fun c => sort_value d (sort_field c)) srt) |}.

Definition compare_values (a b : json) : comparison :=
  match a, b with
  | JNum x, JNum y => Z.compare x y
  | JStr x, JStr y => String.compare x y
  | _, _ => Eq
  end.

(** Two tuples of sort values, in the order of the sort: the first entry
    that tells them apart decides, in its direction. *)
Fixpoint compare_tuples (srt : list SortClause) (a b : list json) : comparison :=
  match srt, a, b with
  | c :: srt', x :: a', y :: b' =>
      match match order c with
            | asc => compare_values x y
            | desc => compare_values y x
            end with
      | Eq => compare_tuples srt' a' b'
      | decided => decided
      end
  | _, _, _ => Eq
  end.

Definition comes_before (srt : list SortClause) (a b : Hit.t) : bool :=
  match compare_tuples srt (or_empty (Hit.sort a)) (or_empty (Hit.sort b)) with
  | Lt => true
  | Eq | Gt => false
  end.

Fixpoint insert_hit (srt : list SortClause) (h : Hit.t) (sorted : list Hit.t)
  : list Hit.t :=
  match sorted with
  | [] => [h]
  | x :: rest =>
      if comes_before srt h x then h :: x :: rest
      else x :: insert_hit srt h rest
  end.

Definition sort_hits (srt : list SortClause) (l : list Hit.t) : list Hit.t :=
  fold_right (insert_hit srt) [] l.

(** The documents a query selects, in the order of a sort. *)
Definition ranked (text_match : string -> list string -> Source.t -> bool)
  (docs : list Document) (query : Query) (srt : list SortClause) : list Hit.t :=
  sort_hits srt
    (map (hit_of srt)
         (filter (fun d => matches text_match (doc_source d) query) docs)).

(** The hits that come strictly after the marker. *)
Definition resume (srt : list SortClause) (search_after : option json)
  (l : list Hit.t) : list Hit.t :=
  match search_after with
  | Some (JArr marker) =>
      filter (fun h =>
                match compare_tuples srt marker (or_empty (Hit.sort h)) with
                | Lt => true
                | Eq | Gt => false
                end) l
  | _ => l
  end.

(** An engine holding one index: it knows no other index, refuses a
    negative size, and answers with the documents that the request's query
    selects, in the order of the request's sort, after the request's marker,
    at most [size] of them. *)
Definition sorting_engine (index : string)
  (text_match : string -> list string -> Source.t -> bool)
  (docs : list Document) : Engine :=
  fun _ request =>
    if negb (String.eqb (Request.index request) index) then
      Thrown {| err_name := "ResponseError";
                err_message := "index_not_found_exception" |}
    else if Request.size request <? 0 then
      Thrown {| err_name := "ResponseError";
                err_message := "[size] parameter cannot be negative" |}
    else
      let selected :=
        ranked text_match docs (Request.query request) (Request.sort request) in
      Returned
        {| hits := firstn (Z.to_nat (Request.size request))
                          (resume (Request.sort request)
                                  (Request.search_after request) selected);
           total := TotalObject (Z.of_nat (List.length selected)) |}.

(** Four variants, three of them in the collection ["fruit"], in no
    particular order. *)
Definition product (pname pid : string) (cents : Z) (collection : string)
  : Source.t :=
  {| Source.productId := pid;
     Source.productName := pname;
     Source.slug := pname;
     Source.description := "";
     Source.productAssetId := None;
     Source.productPreview := "";
     Source.productPriceWithTaxMin := None;
     Source.productPriceWithTaxMax := None;
     Source.priceWithTax := cents;
     Source.currencyCode := "USD";
     Source.facetValueIds := None;
     Source.collectionIds := Some [collection] |}.

Definition shop : list Document :=
  [{| doc_source := product "banana" "2" 100 "fruit";
      doc_productVariantId := "21" |};
   {| doc_source := product "carrot" "3" 150 "vegetable";
      doc_productVariantId := "31" |};
   {| doc_source := product "apple" "1" 300 "fruit";
      doc_productVariantId := "11" |};
   {| doc_source := product "cherry" "4" 200 "fruit";
      doc_productVariantId := "41" |}].

(** Whether the text is the name of the product. *)
Definition name_match (text : string) (fields : list string) (d : Source.t)
  : bool :=
  String.eqb text (Source.productName d).

(** The fruit, one item a page, the dearest first. *)
Definition fruit_by_price : CursorSearchInput :=
  {| term := None; facetValueIds := None; facetValueOperator := None;
     collectionId := Some "fruit"; collectionSlug := None;
     groupByProduct := None; take := Some 1; cursor := None;
     sort := sort_by None (Some DESC) |}.

Definition fruit_dearest_first : list Hit.t :=
  [{| Hit._source := product "apple" "1" 300 "fruit"; Hit._score := JNull;
      Hit.sort := Some [JNum 300; JStr "1"; JStr "11"] |};
   {| Hit._source := product "cherry" "4" 200 "fruit"; Hit._score := JNull;
      Hit.sort := Some [JNum 200; JStr "4"; JStr "41"] |};
   {| Hit._source := product "banana" "2" 100 "fruit"; Hit._score := JNull;
      Hit.sort := Some [JNum 100; JStr "2"; JStr "21"] |}].

(** The use of the query that the schema documents: the first page, then
    the page of each [nextCursor], until [hasMore] is false; the items are
    collected.  [fuel] bounds the number of pages, and [None] tells that it
    ran out. *)
Fixpoint scroll (client : Engine) (indexPrefix : string) (fuel : nat)
  (input : CursorSearchInput) (w : World)
  : option (Outcome (list SearchResult.t)) * World :=
  match fuel with
  | O => (None, w)
  | S fuel' =>
      match cursorSearch client indexPrefix input w with
      | (Thrown e, w') => (Some (Thrown e), w')
      | (Returned page, w') =>
          if hasMore page then
            match scroll client indexPrefix fuel'
                         (set_cursor input (nextCursor page)) w' with
            | (Some (Returned rest), w'') =>
                (Some (Returned (items page ++ rest)), w'')
            | other => other
            end
          else (Some (Returned (items page)), w')
      end
  end.

(** The cursor of the request is present, not empty, and holds no JSON. *)
Definition malformed_cursor (input : CursorSearchInput) : Prop :=
  exists c,
    cursor input = Some c /\ c <> ""%string
    /\ JSON_parse (Buffer.toString_utf8 (Buffer.from_base64 c)) = None.

(** The request with other values in the fields that [types.ts] declares
    and the service does not read. *)
Definition set_unread (input : CursorSearchInput) (slug : option string)
  (group : option bool) (created : option SortOrder) : CursorSearchInput :=
  {| term := term input;
     facetValueIds := facetValueIds input;
     facetValueOperator := facetValueOperator input;
     collectionId := collectionId input;
     collectionSlug := slug;
     groupByProduct := group;
     take := take input;
     cursor := cursor input;
     sort :=
       match sort input with
       | Some si =>
           Some {| name := name si; price := price si; createdAt := created |}
       | None => None
       end |}.

(** A character of a base64 token: of the standard alphabet, or the
    padding. *)
Definition token_char (c : ascii) : bool :=
  match Base64.unbase64 c with
  | Some _ => negb (Ascii.eqb c "-" || Ascii.eqb c "_")
  | None => Ascii.eqb c "="
  end.

Fixpoint all_chars (p : ascii -> bool) (s : string) : bool :=
  match s with
  | EmptyString => true
  | String c rest => p c && all_chars p rest
  end.

(** The cursor a caller holds after the first [k] documents of [docs]:
    none before the first page, then the cursor made of the sort values of
    the last document seen. *)
Definition cursor_at (docs : list Hit.t) (srt : list SortClause) (k : nat)
  (c : option string) : Prop :=
  match k with
  | O => truthy_string c = false
  | S k' =>
      exists h,
        nth_error docs k' = Some h
        /\ c = Some (encodeCursor {| values := or_empty (Hit.sort h);
                                     sortFields := map sort_field srt |})
  end.

(** The same request with another [facetValueOperator]. *)
Definition set_operator (input : CursorSearchInput)
  (operator : option LogicalOperator) : CursorSearchInput :=
  {| term := term input; facetValueIds := facetValueIds input;
     facetValueOperator := operator; collectionId := collectionId input;
     collectionSlug := collectionSlug input;
     groupByProduct := groupByProduct input; take := take input;
     cursor := cursor input; sort := sort input |}.

(** * Properties *)

(** *** Base64 round trip *)

Lemma unbase64_char_of_sextet (x0 x1 x2 x3 x4 x5 : bool) :
  Base64.unbase64 (Base64.char_of_sextet (Ascii x0 x1 x2 x3 x4 x5 false false))
  = Some (Ascii x0 x1 x2 x3 x4 x5 false false).
Proof.
  destruct x0, x1, x2, x3, x4, x5; reflexivity.
Qed.

Lemma char_of_sextet_not_pad (x0 x1 x2 x3 x4 x5 : bool) :
  Ascii.eqb (Base64.char_of_sextet (Ascii x0 x1 x2 x3 x4 x5 false false)) "="
  = false.
Proof.
  destruct x0, x1, x2, x3, x4, x5; reflexivity.
Qed.

Lemma sextets_char_of_sextet (x0 x1 x2 x3 x4 x5 : bool) (rest : string) :
  Base64.sextets
    (String (Base64.char_of_sextet (Ascii x0 x1 x2 x3 x4 x5 false false)) rest)
  = Ascii x0 x1 x2 x3 x4 x5 false false :: Base64.sextets rest.
Proof.
  cbn [Base64.sextets].
  now rewrite char_of_sextet_not_pad, unbase64_char_of_sextet.
Qed.

(** Induction on byte strings three bytes at a time. *)
Lemma string_ind3 (P : string -> Prop) :
  P "" ->
  (forall a, P (String a "")) ->
  (forall a b, P (String a (String b ""))) ->
  (forall a b c rest, P rest -> P (String a (String b (String c rest)))) ->
  forall s, P s.
Proof.
  intros H0 H1 H2 H3.
  fix IH 1.
  intros [|a [|b [|c rest]]]; [exact H0 | apply H1 | apply H2 | ].
  apply H3, IH.
Qed.

Lemma base64_decode_encode (bytes : string) :
  Base64.decode (Base64.encode bytes) = bytes.
Proof.
  unfold Base64.decode.
  induction bytes as [|a|a b|a b c rest IH] using string_ind3.
  - reflexivity.
  - destruct a as [a0 a1 a2 a3 a4 a5 a6 a7].
    cbn [Base64.encode]. rewrite !sextets_char_of_sextet. reflexivity.
  - destruct a as [a0 a1 a2 a3 a4 a5 a6 a7], b as [b0 b1 b2 b3 b4 b5 b6 b7].
    cbn [Base64.encode]. rewrite !sextets_char_of_sextet. reflexivity.
  - destruct a as [a0 a1 a2 a3 a4 a5 a6 a7], b as [b0 b1 b2 b3 b4 b5 b6 b7],
             c as [c0 c1 c2 c3 c4 c5 c6 c7].
    cbn [Base64.encode]. rewrite !sextets_char_of_sextet.
    cbn [Base64.bytes_of_sextets]. now rewrite IH.
Qed.

(** *** The fuel of the parser is enough *)

Lemma skip_ws_length (s : string) :
  (String.length (skip_ws s) <= String.length s)%nat.
Proof.
  induction s as [|c s IH]; cbn [skip_ws]; [lia|].
  destruct (is_ws c); cbn [String.length] in *; lia.
Qed.

Lemma expect_length (c : ascii) (s r : string) :
  expect c s = Some r -> String.length s = S (String.length r).
Proof.
  destruct s as [|c' s]; cbn [expect]; [discriminate|].
  destruct (Ascii.eqb c' c); [|discriminate]. now intros [= ->].
Qed.

Lemma expect_skip_ws_length (c : ascii) (s r : string) :
  expect c (skip_ws s) = Some r -> (String.length r < String.length s)%nat.
Proof.
  intros H. apply expect_length in H. pose proof (skip_ws_length s). lia.
Qed.

Lemma read_digits_length (s : string) :
  (String.length (snd (read_digits s)) <= String.length s)%nat
  /\ (fst (read_digits s) <> Nil ->
      String.length (snd (read_digits s)) < String.length s)%nat.
Proof.
  induction s as [|c s [IH1 IH2]]; cbn [read_digits].
  - split; [cbn; lia | cbn; congruence].
  - destruct (is_digit c).
    + destruct (read_digits s) as [d r]. cbn [fst snd String.length] in *.
      split; [lia | intros _; lia].
    + cbn [fst snd]. split; [lia | congruence].
Qed.

Lemma read_sign_length (s : string) :
  (String.length (snd (read_sign s)) <= String.length s)%nat.
Proof.
  destruct s as [|c s]; [cbn; lia|].
  unfold read_sign.
  destruct c as [[] [] [] [] [] [] [] []]; cbn; lia.
Qed.

Lemma read_fraction_length (s r : string) (b : bool) :
  read_fraction s = Some (b, r) -> (String.length r <= String.length s)%nat.
Proof.
  destruct s as [|c s]; [cbn; intros [= _ E]; subst; cbn; lia|].
  unfold read_fraction.
  pose proof (read_digits_length s) as [Hl _].
  destruct c as [[] [] [] [] [] [] [] []];
    try (intros [= _ E]; subst; cbn [String.length] in *; lia).
  destruct (read_digits s) as [d r']. cbn [snd] in Hl.
  destruct d; try discriminate; intros [= _ E]; subst; cbn [String.length] in *; lia.
Qed.

Lemma read_exponent_length (s r : string) (b : bool) :
  read_exponent s = Some (b, r) -> (String.length r <= String.length s)%nat.
Proof.
  assert (Hdigits : forall x y b',
    match read_digits x with
    | (Nil, _) => None
    | (_, rest') => Some (true, rest')
    end = Some (b', y) -> (String.length y <= String.length x)%nat).
  { intros x y b'. pose proof (read_digits_length x) as [Hl _].
    destruct (read_digits x) as [d r']. cbn [snd] in Hl.
    destruct d; try discriminate; intros [= _ E]; subst; lia. }
  destruct s as [|c s]; [cbn; intros [= _ E]; subst; cbn; lia|].
  unfold read_exponent.
  destruct (Ascii.eqb c "e" || Ascii.eqb c "E").
  - destruct s as [|c' s']; [discriminate|].
    destruct (Ascii.eqb c' "+" || Ascii.eqb c' "-"); intros H;
      apply Hdigits in H; cbn [String.length] in *; lia.
  - intros [= _ E]; subst; lia.
Qed.

Lemma valid_int_part_not_nil (d : uint) : valid_int_part d = true -> d <> Nil.
Proof. destruct d; [discriminate | congruence ..]. Qed.

Lemma parse_number_length (s r : string) (v : json) :
  parse_number s = Some (v, r) -> (String.length r < String.length s)%nat.
Proof.
  unfold parse_number.
  pose proof (read_sign_length s) as Hs.
  destruct (read_sign s) as [neg s1]. cbn [snd] in Hs.
  pose proof (read_digits_length s1) as [_ Hd].
  destruct (read_digits s1) as [d s2]. cbn [fst snd] in Hd.
  destruct (valid_int_part d) eqn:Hv; [|discriminate].
  specialize (Hd (valid_int_part_not_nil d Hv)).
  destruct (read_fraction s2) as [[frac s3]|] eqn:Hf; [|discriminate].
  apply read_fraction_length in Hf.
  destruct (read_exponent s3) as [[exp s4]|] eqn:He; [|discriminate].
  apply read_exponent_length in He.
  destruct (frac || exp); [intros [= _ E]; subst; lia|].
  destruct (neg && (Z.of_N (N.of_uint d) =? 0)); intros [= _ E]; subst; lia.
Qed.

Lemma parse_literal_length (s r : string) (v : json) :
  parse_literal s = Some (v, r) -> (String.length r < String.length s)%nat.
Proof.
  unfold parse_literal. intros H.
  repeat match type of H with
         | match ?x with _ => _ end = _ =>
             destruct x; try discriminate H
         end;
    injection H as _ <-; cbn [String.length]; lia.
Qed.

Lemma cons_string_inv (p : string) (x : option (string * string)) (k r : string) :
  cons_string p x = Some (k, r) -> exists k', x = Some (k', r).
Proof.
  destruct x as [[k' r']|]; cbn [cons_string]; [|discriminate].
  intros [= _ <-]. now exists k'.
Qed.

Lemma parse_chars_length_aux (n : nat) :
  forall s k r,
    (String.length s <= n)%nat ->
    parse_chars s = Some (k, r) -> (String.length r < String.length s)%nat.
Proof.
  induction n as [|n IH]; intros s k r Hn H.
  - destruct s; [discriminate H | cbn [String.length] in Hn; lia].
  - destruct s as [|c rest]; [discriminate H|].
    cbn [parse_chars] in H. cbn [String.length] in Hn |- *.
    repeat match type of H with
           | (if ?b then _ else _) = _ => destruct b
           | match ?x with _ => _ end = _ => destruct x
           | None = Some _ => discriminate H
           | Some _ = Some _ => injection H as _ <-; lia
           end;
      apply cons_string_inv in H; destruct H as [k' H];
      apply IH in H; cbn [String.length] in *; lia.
Qed.

Lemma parse_chars_length (s k r : string) :
  parse_chars s = Some (k, r) -> (String.length r < String.length s)%nat.
Proof. apply (parse_chars_length_aux (String.length s)). lia. Qed.

Lemma parse_adequate (fuel : nat) :
  adequate parse_value fuel /\ adequate parse_elements fuel
  /\ adequate parse_members fuel.
Proof.
  induction fuel as [|fuel (IHv & IHe & IHm)].
  - repeat split; discriminate.
  - split; [|split]; intros s a r H.
    + (* a value *)
      cbn [parse_value] in H.
      destruct (skip_ws s) as [|c rest] eqn:Hs; [discriminate H|].
      pose proof (skip_ws_length s) as Hl. rewrite Hs in Hl.
      cbn [String.length] in Hl.
      destruct (Ascii.eqb c "[") eqn:Hc1.
      { destruct (expect "]" (skip_ws rest)) as [rest'|] eqn:He.
        - injection H as <- <-. pose proof (expect_skip_ws_length _ _ _ He).
          split; [lia|]. intros [|f'] Hf; [lia|].
          cbn [parse_value]. now rewrite Hs, Hc1, He.
        - destruct (parse_elements fuel rest) as [[items rest']|] eqn:Hp;
            [|discriminate H].
          injection H as <- <-. destruct (IHe _ _ _ Hp) as [Hlt Hfuel].
          split; [lia|]. intros [|f'] Hf; [lia|].
          cbn [parse_value]. rewrite Hs, Hc1, He, Hfuel by lia. reflexivity. }
      destruct (Ascii.eqb c "{") eqn:Hc2.
      { destruct (expect "}" (skip_ws rest)) as [rest'|] eqn:He.
        - injection H as <- <-. pose proof (expect_skip_ws_length _ _ _ He).
          split; [lia|]. intros [|f'] Hf; [lia|].
          cbn [parse_value]. now rewrite Hs, Hc1, Hc2, He.
        - destruct (parse_members fuel rest) as [[members rest']|] eqn:Hp;
            [|discriminate H].
          injection H as <- <-. destruct (IHm _ _ _ Hp) as [Hlt Hfuel].
          split; [lia|]. intros [|f'] Hf; [lia|].
          cbn [parse_value]. rewrite Hs, Hc1, Hc2, He, Hfuel by lia.
          reflexivity. }
      destruct (Ascii.eqb c dquote) eqn:Hc3.
      { destruct (parse_chars rest) as [[str rest']|] eqn:Hp; [|discriminate H].
        injection H as <- <-. pose proof (parse_chars_length _ _ _ Hp).
        split; [lia|]. intros [|f'] Hf; [lia|].
        cbn [parse_value]. now rewrite Hs, Hc1, Hc2, Hc3, Hp. }
      destruct (Ascii.eqb c "-" || is_digit c) eqn:Hc4.
      { pose proof (parse_number_length _ _ _ H) as Hlen.
        cbn [String.length] in Hlen.
        split; [lia|]. intros [|f'] Hf; [lia|].
        cbn [parse_value]. now rewrite Hs, Hc1, Hc2, Hc3, Hc4. }
      pose proof (parse_literal_length _ _ _ H) as Hlen.
      cbn [String.length] in Hlen.
      split; [lia|]. intros [|f'] Hf; [lia|].
      cbn [parse_value]. now rewrite Hs, Hc1, Hc2, Hc3, Hc4.
    + (* the elements of an array *)
      cbn [parse_elements] in H.
      destruct (parse_value fuel s) as [[v rest]|] eqn:Hv; [|discriminate H].
      destruct (IHv _ _ _ Hv) as [Hlt Hfuel].
      destruct (expect "," (skip_ws rest)) as [rest'|] eqn:Hcomma.
      * destruct (parse_elements fuel rest') as [[items rest'']|] eqn:Hp;
          [|discriminate H].
        injection H as <- <-. destruct (IHe _ _ _ Hp) as [Hlt' Hfuel'].
        pose proof (expect_skip_ws_length _ _ _ Hcomma).
        split; [lia|]. intros [|f'] Hf; [lia|].
        cbn [parse_elements].
        rewrite Hfuel, Hcomma, Hfuel' by lia. reflexivity.
      * destruct (expect "]" (skip_ws rest)) as [rest'|] eqn:Hclose;
          [|discriminate H].
        injection H as <- <-.
        pose proof (expect_skip_ws_length _ _ _ Hclose).
        split; [lia|]. intros [|f'] Hf; [lia|].
        cbn [parse_elements].
        rewrite Hfuel, Hcomma, Hclose by lia. reflexivity.
    + (* the members of an object *)
      cbn [parse_members] in H.
      destruct (expect dquote (skip_ws s)) as [rest|] eqn:Hq; [|discriminate H].
      destruct (parse_chars rest) as [[key rest1]|] eqn:Hk; [|discriminate H].
      destruct (expect ":" (skip_ws rest1)) as [rest2|] eqn:Hcolon;
        [|discriminate H].
      destruct (parse_value fuel rest2) as [[v rest3]|] eqn:Hv; [|discriminate H].
      destruct (IHv _ _ _ Hv) as [Hlt Hfuel].
      pose proof (expect_skip_ws_length _ _ _ Hq).
      pose proof (parse_chars_length _ _ _ Hk).
      pose proof (expect_skip_ws_length _ _ _ Hcolon).
      destruct (expect "," (skip_ws rest3)) as [rest4|] eqn:Hcomma.
      * destruct (parse_members fuel rest4) as [[members rest5]|] eqn:Hp;
          [|discriminate H].
        injection H as <- <-. destruct (IHm _ _ _ Hp) as [Hlt' Hfuel'].
        pose proof (expect_skip_ws_length _ _ _ Hcomma).
        split; [lia|]. intros [|f'] Hf; [lia|].
        cbn [parse_members].
        rewrite Hq, Hk, Hcolon, Hfuel, Hcomma, Hfuel' by lia. reflexivity.
      * destruct (expect "}" (skip_ws rest3)) as [rest4|] eqn:Hclose;
          [|discriminate H].
        injection H as <- <-.
        pose proof (expect_skip_ws_length _ _ _ Hclose).
        split; [lia|]. intros [|f'] Hf; [lia|].
        cbn [parse_members].
        rewrite Hq, Hk, Hcolon, Hfuel, Hcomma, Hclose by lia. reflexivity.
Qed.

(** Whatever fuel a text can be parsed with, [JSON_parse] parses it: it
    returns [None] only for a text that is not JSON. *)
Theorem JSON_parse_complete (fuel : nat) (text rest : string) (v : json) :
  parse_value fuel text = Some (v, rest) ->
  skip_ws rest = ""%string ->
  JSON_parse text = Some v.
Proof.
  intros Hp Hr. unfold JSON_parse.
  destruct (parse_adequate fuel) as (Hv & _ & _).
  destruct (Hv _ _ _ Hp) as [_ Hfuel].
  rewrite Hfuel by lia. now rewrite Hr.
Qed.

(** *** [JSON.parse] reads back what [JSON.stringify] prints *)

Lemma string_app_assoc (a b c : string) :
  ((a ++ b) ++ c = a ++ (b ++ c))%string.
Proof. induction a as [|x a IH]; simpl; [reflexivity | now rewrite IH]. Qed.

Lemma string_app_nil_r (a : string) : (a ++ "")%string = a.
Proof. induction a as [|x a IH]; simpl; [reflexivity | now rewrite IH]. Qed.

Lemma parse_chars_escape (s rest : string) :
  parse_chars (escape s ++ String dquote rest) = Some (s, rest).
Proof.
  induction s as [|c s IH].
  - reflexivity.
  - cbn [escape]. rewrite string_app_assoc.
    destruct c as [b0 b1 b2 b3 b4 b5 b6 b7].
    destruct b0, b1, b2, b3, b4, b5, b6, b7;
    (match goal with |- context [escape_char ?c] =>
      let e := eval vm_compute in (escape_char c) in
      change (escape_char c) with e end;
     cbn [append]; simpl; rewrite IH; reflexivity).
Qed.

Lemma read_digits_no_digit (rest : string) :
  no_digit_head rest -> read_digits rest = (Nil, rest).
Proof.
  destruct rest as [|c r]; simpl; [reflexivity|]. now intros ->.
Qed.

Lemma read_digits_string_of_uint (d : uint) (rest : string) :
  no_digit_head rest ->
  read_digits (NilEmpty.string_of_uint d ++ rest) = (d, rest).
Proof.
  intros Hrest.
  induction d as [|d IH|d IH|d IH|d IH|d IH|d IH|d IH|d IH|d IH|d IH];
    [ now apply read_digits_no_digit | .. ];
    cbn [NilEmpty.string_of_uint append read_digits];
    (match goal with |- context [is_digit ?c] =>
       change (is_digit c) with true end);
    cbv iota; rewrite IH; reflexivity.
Qed.

Lemma nzhead_not_D0 (u u' : uint) : nzhead u <> D0 u'.
Proof. induction u; simpl; congruence. Qed.

Lemma valid_int_part_unorm (d : uint) : unorm d = d -> valid_int_part d = true.
Proof.
  destruct d as [|d|d|d|d|d|d|d|d|d|d]; try reflexivity.
  - discriminate.
  - unfold unorm. simpl nzhead. intros H.
    destruct (nzhead d) eqn:E; try discriminate.
    + injection H as <-. reflexivity.
    + exfalso. exact (nzhead_not_D0 _ _ E).
Qed.

Lemma unorm_pos_to_uint (p : positive) : unorm (Pos.to_uint p) = Pos.to_uint p.
Proof.
  rewrite <- DecimalPos.Unsigned.to_of.
  now rewrite DecimalPos.Unsigned.of_to.
Qed.

Lemma valid_int_part_pos (p : positive) : valid_int_part (Pos.to_uint p) = true.
Proof. apply valid_int_part_unorm, unorm_pos_to_uint. Qed.

Lemma delimited_no_digit rest : delimited rest -> no_digit_head rest.
Proof. intros [r [-> | [-> | ->]]]; reflexivity. Qed.

Lemma parse_value_number_head (fuel : nat) (c : ascii) (r : string) :
  Ascii.eqb c "-" || is_digit c = true ->
  parse_value (S fuel) (String c r) = parse_number (String c r).
Proof.
  intros H. destruct c as [b0 b1 b2 b3 b4 b5 b6 b7].
  destruct b0, b1, b2, b3, b4, b5, b6, b7; try discriminate H; reflexivity.
Qed.

Lemma string_of_uint_head (d : uint) (rest : string) :
  d <> Nil ->
  exists c r, (NilEmpty.string_of_uint d ++ rest)%string = String c r
              /\ is_digit c = true.
Proof.
  intros Hd. destruct d; try congruence; cbn [NilEmpty.string_of_uint append];
    eexists; eexists; (split; [reflexivity | reflexivity]).
Qed.

Lemma parse_value_string (fuel : nat) (s rest : string) :
  parse_value (S fuel) (quote s ++ rest) = Some (JStr s, rest).
Proof.
  unfold quote. cbn [append]. rewrite string_app_assoc. cbn [append].
  cbn [parse_value skip_ws]. change (is_ws dquote) with false. cbv iota.
  change (Ascii.eqb dquote "[") with false.
  change (Ascii.eqb dquote "{") with false.
  rewrite Ascii.eqb_refl. cbv iota.
  now rewrite parse_chars_escape.
Qed.

Lemma digit_head_facts (c : ascii) :
  Ascii.eqb c "-" || is_digit c = true ->
  is_ws c = false /\ Ascii.eqb c "]" = false.
Proof.
  intros H. destruct c as [b0 b1 b2 b3 b4 b5 b6 b7].
  destruct b0, b1, b2, b3, b4, b5, b6, b7; try discriminate H; split; reflexivity.
Qed.

Lemma join_commas_cons (p q : string) (rest : list string) :
  join_commas (p :: q :: rest) = (p ++ String "," (join_commas (q :: rest)))%string.
Proof. reflexivity. Qed.

Lemma parse_elements_S (fuel : nat) (s : string) :
  parse_elements (S fuel) s =
  match parse_value fuel s with
  | Some (v, rest) =>
      match expect "," (skip_ws rest) with
      | Some rest' =>
          match parse_elements fuel rest' with
          | Some (items, rest'') => Some (v :: items, rest'')
          | None => None
          end
      | None =>
          match expect "]" (skip_ws rest) with
          | Some rest' => Some ([v], rest')
          | None => None
          end
      end
  | None => None
  end.
Proof. reflexivity. Qed.

Lemma parse_value_S_object (fuel : nat) (rest : string) :
  expect "}" (skip_ws rest) = None ->
  parse_value (S fuel) (String "{" rest) =
  match parse_members fuel rest with
  | Some (members, rest') =>
      Some (JObj (fold_left (fun o kv => obj_set (fst kv) (snd kv) o) members []),
            rest')
  | None => None
  end.
Proof. intros H. cbn [parse_value skip_ws]. change (is_ws "{") with false.
  cbv iota. change (Ascii.eqb "{" "[") with false. cbv iota.
  rewrite Ascii.eqb_refl, H. reflexivity. Qed.

Lemma parse_members_S (fuel : nat) (s : string) :
  parse_members (S fuel) s =
  match expect dquote (skip_ws s) with
  | Some rest =>
      match parse_chars rest with
      | Some (key, rest1) =>
          match expect ":" (skip_ws rest1) with
          | Some rest2 =>
              match parse_value fuel rest2 with
              | Some (v, rest3) =>
                  match expect "," (skip_ws rest3) with
                  | Some rest4 =>
                      match parse_members fuel rest4 with
                      | Some (members, rest5) => Some ((key, v) :: members, rest5)
                      | None => None
                      end
                  | None =>
                      match expect "}" (skip_ws rest3) with
                      | Some rest4 => Some ([(key, v)], rest4)
                      | None => None
                      end
                  end
              | None => None
              end
          | None => None
          end
      | None => None
      end
  | None => None
  end.
Proof. reflexivity. Qed.

(** One member, followed by what the parser finds after its value. *)
Lemma parse_member_prefix (k body tail : string) :
  expect dquote (skip_ws (quote k ++ String ":" (body ++ tail)))
  = Some (escape k ++ String dquote (String ":" (body ++ tail)))%string.
Proof.
  unfold quote. cbn [append]. rewrite string_app_assoc. cbn [append skip_ws].
  change (is_ws dquote) with false. cbv iota. cbn [expect].
  now rewrite Ascii.eqb_refl.
Qed.

Lemma parse_members_last (fuel : nat) (k body rest : string) (v : json) :
  parse_value fuel (body ++ String "}" rest) = Some (v, String "}" rest) ->
  parse_members (S fuel) (quote k ++ String ":" (body ++ String "}" rest))
  = Some ([(k, v)], rest).
Proof.
  intros Hv. rewrite parse_members_S, parse_member_prefix, parse_chars_escape.
  cbn [skip_ws]. change (is_ws ":") with false. cbv iota.
  cbn [expect]. rewrite Ascii.eqb_refl, Hv.
  reflexivity.
Qed.

Lemma parse_members_cons (fuel : nat) (k body more rest : string) (v : json)
  (members : list (string * json)) :
  parse_value fuel (body ++ String "," more) = Some (v, String "," more) ->
  parse_members fuel more = Some (members, rest) ->
  parse_members (S fuel) (quote k ++ String ":" (body ++ String "," more))
  = Some ((k, v) :: members, rest).
Proof.
  intros Hv Hm. rewrite parse_members_S, parse_member_prefix, parse_chars_escape.
  cbn [skip_ws]. change (is_ws ":") with false. cbv iota.
  cbn [expect]. rewrite Ascii.eqb_refl, Hv.
  cbn [skip_ws]. change (is_ws ",") with false. cbv iota.
  cbn [expect]. rewrite Ascii.eqb_refl, Hm. reflexivity.
Qed.

Lemma stringify_object2 (k1 k2 : string) (v1 v2 : json) :
  stringify (JObj [(k1, v1); (k2, v2)])
  = String "{" (quote k1 ++ String ":" (stringify v1 ++ String ","
                 (quote k2 ++ String ":" (stringify v2 ++ "}"))))%string.
Proof.
  change (stringify (JObj [(k1, v1); (k2, v2)]))
    with ("{" ++ ((quote k1 ++ ":" ++ stringify v1) ++ ","
                  ++ (quote k2 ++ ":" ++ stringify v2)) ++ "}")%string.
  do 4 (cbn [append]; rewrite ?string_app_assoc). reflexivity.
Qed.

Lemma string_length_append (a b : string) :
  String.length (a ++ b) = (String.length a + String.length b)%nat.
Proof. induction a as [|c a IH]; simpl; [reflexivity | now rewrite IH]. Qed.

Lemma printable_array (items : list json) :
  printable (JArr items) <-> Forall printable items.
Proof.
  induction items as [|x r IH]; [split; constructor|].
  split.
  - intros [Hx Hr]. constructor; [exact Hx | now apply IH].
  - intros H. inversion H as [|? ? Hx Hr]; subst. split; [exact Hx | now apply IH].
Qed.

Lemma printable_object (members : list (string * json)) :
  printable (JObj members)
  <-> NoDup (map fst members) /\ Forall (fun kv => printable (snd kv)) members.
Proof.
  cbn [printable]. apply and_iff_compat_l.
  induction members as [|kv r IH]; [split; constructor|].
  split.
  - intros [Hx Hr]. constructor; [exact Hx | now apply IH].
  - intros H. inversion H as [|? ? Hx Hr]; subst. split; [exact Hx | now apply IH].
Qed.

(** Induction on JSON values, with the hypothesis for every item and every
    member. *)
Lemma json_nested_ind (P : json -> Prop) :
  P JNull -> (forall b, P (JBool b)) -> (forall n, P (JNum n)) ->
  (forall l, P (JFloat l)) -> (forall s, P (JStr s)) ->
  (forall items, Forall P items -> P (JArr items)) ->
  (forall members, Forall (fun kv => P (snd kv)) members -> P (JObj members)) ->
  (forall n, P (JSpecial n)) ->
  forall v, P v.
Proof.
  intros Hnull Hbool Hnum Hfloat Hstr Harr Hobj Hspecial.
  fix IH 1. intros [| b | n | l | s | items | members | n].
  - exact Hnull.
  - apply Hbool.
  - apply Hnum.
  - apply Hfloat.
  - apply Hstr.
  - apply Harr. induction items as [|x r IHr]; constructor; [apply IH | exact IHr].
  - apply Hobj. induction members as [|[k x] r IHr]; constructor;
      [apply IH | exact IHr].
  - apply Hspecial.
Qed.

Lemma terminated_no_digit (rest : string) : terminated rest -> no_digit_head rest.
Proof. intros [-> | H]; [exact I | now apply delimited_no_digit]. Qed.

Lemma terminated_number_end (rest : string) :
  terminated rest ->
  read_fraction rest = Some (false, rest)
  /\ read_exponent rest = Some (false, rest).
Proof.
  intros [-> | [r [-> | [-> | ->]]]]; split; reflexivity.
Qed.

Lemma parse_number_digits (neg : bool) (p : positive) (rest : string) :
  terminated rest ->
  parse_number ((if neg then "-" else "") ++ NilEmpty.string_of_uint (Pos.to_uint p) ++ rest)
  = Some (JNum (if neg then Zneg p else Zpos p), rest).
Proof.
  intros Hd. pose proof (terminated_no_digit _ Hd) as Hn.
  unfold parse_number.
  assert (Hsign : read_sign ((if neg then "-" else "") ++ NilEmpty.string_of_uint (Pos.to_uint p) ++ rest)
          = (neg, (NilEmpty.string_of_uint (Pos.to_uint p) ++ rest)%string)).
  { destruct neg; [reflexivity|].
    cbn [append]. pose proof (valid_int_part_pos p) as Hv.
    destruct (Pos.to_uint p); try discriminate; reflexivity. }
  rewrite Hsign, (read_digits_string_of_uint _ _ Hn), valid_int_part_pos.
  destruct (terminated_number_end _ Hd) as [-> ->]. cbn [orb].
  change (N.of_uint (Pos.to_uint p)) with (Pos.of_uint (Pos.to_uint p)).
  rewrite DecimalPos.Unsigned.of_to. destruct neg; reflexivity.
Qed.

Lemma parse_value_int (fuel : nat) (n : Z) (rest : string) :
  terminated rest ->
  parse_value (S fuel) (print_int n ++ rest) = Some (JNum n, rest).
Proof.
  intros Hd. destruct n as [|p|p].
  - cbn [print_int append].
    rewrite parse_value_number_head by reflexivity.
    unfold parse_number. cbn [read_sign read_digits].
    change (is_digit "0") with true. cbv iota.
    rewrite (read_digits_no_digit _ (terminated_no_digit _ Hd)).
    cbn [cons_digit uint_of_char valid_int_part].
    destruct (terminated_number_end _ Hd) as [-> ->]. reflexivity.
  - cbn [print_int].
    destruct (string_of_uint_head (Pos.to_uint p) rest
                (DecimalPos.Unsigned.to_uint_nonnil p)) as (c & r & E & Hc).
    rewrite E, parse_value_number_head by (rewrite Hc; apply orb_true_r).
    rewrite <- E. exact (parse_number_digits false p rest Hd).
  - cbn [print_int append].
    rewrite parse_value_number_head by reflexivity.
    exact (parse_number_digits true p rest Hd).
Qed.

(** *** Numbers held by their literal *)

Lemma read_sign_cons (c : ascii) (r : string) :
  read_sign (String c r)
  = if Ascii.eqb c "-" then (true, r) else (false, String c r).
Proof.
  destruct c as [b0 b1 b2 b3 b4 b5 b6 b7].
  destruct b0, b1, b2, b3, b4, b5, b6, b7; reflexivity.
Qed.

Lemma read_fraction_cons (c : ascii) (r : string) :
  read_fraction (String c r)
  = if Ascii.eqb c "."
    then match read_digits r with
         | (Nil, _) => None
         | (_, rest') => Some (true, rest')
         end
    else Some (false, String c r).
Proof.
  destruct c as [b0 b1 b2 b3 b4 b5 b6 b7].
  destruct b0, b1, b2, b3, b4, b5, b6, b7; reflexivity.
Qed.

(** What the readers of a number do with a text, they do with the text
    followed by the end of a value. *)
Lemma read_digits_app (s rest : string) :
  no_digit_head rest ->
  read_digits (s ++ rest)
  = (fst (read_digits s), (snd (read_digits s) ++ rest)%string).
Proof.
  intros Hrest. induction s as [|c s IH].
  - cbn [append read_digits fst snd]. now apply read_digits_no_digit.
  - cbn [append read_digits]. destruct (is_digit c); [|reflexivity].
    rewrite IH. destruct (read_digits s) as [d r]. reflexivity.
Qed.

Lemma read_fraction_app (s r rest : string) (b : bool) :
  terminated rest ->
  read_fraction s = Some (b, r) ->
  read_fraction (s ++ rest) = Some (b, (r ++ rest)%string).
Proof.
  intros Hrest. destruct s as [|c s].
  - intros [= <- <-]. cbn [append].
    now destruct (terminated_number_end _ Hrest) as [-> _].
  - cbn [append]. rewrite !read_fraction_cons.
    destruct (Ascii.eqb c "."); [|now intros [= <- <-]].
    rewrite (read_digits_app _ _ (terminated_no_digit _ Hrest)).
    destruct (read_digits s) as [d x]. cbn [fst snd].
    destruct d; (discriminate || now intros [= <- <-]).
Qed.

Lemma read_exponent_app (s r rest : string) (b : bool) :
  terminated rest ->
  read_exponent s = Some (b, r) ->
  read_exponent (s ++ rest) = Some (b, (r ++ rest)%string).
Proof.
  intros Hrest.
  assert (Hdigits : forall x,
    match read_digits x with
    | (Nil, _) => None
    | (_, rest') => Some (true, rest')
    end = Some (b, r) ->
    match read_digits (x ++ rest) with
    | (Nil, _) => None
    | (_, rest') => Some (true, rest')
    end = Some (b, (r ++ rest)%string)).
  { intros x. rewrite (read_digits_app _ _ (terminated_no_digit _ Hrest)).
    destruct (read_digits x) as [d y]. cbn [fst snd].
    destruct d; (discriminate || now intros [= <- <-]). }
  destruct s as [|c s].
  - intros [= <- <-]. cbn [append].
    now destruct (terminated_number_end _ Hrest) as [_ ->].
  - cbn [append]. unfold read_exponent.
    destruct (Ascii.eqb c "e" || Ascii.eqb c "E"); [|now intros [= <- <-]].
    destruct s as [|c' s']; [discriminate|]. cbn [append].
    destruct (Ascii.eqb c' "+" || Ascii.eqb c' "-").
    + apply Hdigits.
    + apply (Hdigits (String c' s')).
Qed.

Lemma substring_prefix (n : nat) (s rest : string) :
  (n <= String.length s)%nat -> substring 0 n (s ++ rest) = substring 0 n s.
Proof.
  revert s. induction n as [|n IH]; intros s Hn.
  - destruct s; destruct rest; reflexivity.
  - destruct s as [|c s]; [cbn in Hn; lia|].
    cbn [append substring]. f_equal. apply IH. cbn in Hn. lia.
Qed.

Lemma substring_all (s : string) : substring 0 (String.length s) s = s.
Proof. induction s as [|c s IH]; [reflexivity|]. cbn. now rewrite IH. Qed.

Lemma consumed_app (s rest : string) :
  consumed (s ++ rest) ("" ++ rest) = s.
Proof.
  unfold consumed. cbn [append]. rewrite string_length_append.
  replace (String.length s + String.length rest - String.length rest)%nat
    with (String.length s) by lia.
  rewrite substring_prefix by lia. apply substring_all.
Qed.

(** The literal of a number starts with a sign or a digit. *)
Lemma float_literal_head (text : string) :
  float_literal text = true ->
  exists c r, text = String c r /\ Ascii.eqb c "-" || is_digit c = true.
Proof.
  unfold float_literal, parse_number.
  destruct text as [|c r]; [discriminate|].
  intros H. exists c, r. split; [reflexivity|].
  rewrite read_sign_cons in H.
  destruct (Ascii.eqb c "-"); [reflexivity|].
  cbn [read_digits] in H. destruct (is_digit c); [reflexivity|].
  discriminate H.
Qed.

(** A literal followed by the end of a value is read whole. *)
Lemma parse_number_literal (text rest : string) :
  float_literal text = true ->
  terminated rest ->
  parse_number (text ++ rest) = Some (JFloat text, rest).
Proof.
  intros Hl Hrest.
  destruct (float_literal_head _ Hl) as (c & r & -> & Hc).
  unfold float_literal, parse_number in Hl. unfold parse_number.
  change (String c r ++ rest)%string with (String c (r ++ rest)).
  rewrite read_sign_cons in Hl |- *.
  pose proof (consumed_app (String c r) rest) as Hcons.
  change (String c r ++ rest)%string with (String c (r ++ rest)) in Hcons.
  destruct (Ascii.eqb c "-").
  - rewrite (read_digits_app _ _ (terminated_no_digit _ Hrest)).
    destruct (read_digits r) as [d s2]. cbn [fst snd].
    destruct (valid_int_part d); [|discriminate].
    destruct (read_fraction s2) as [[frac s3]|] eqn:Hf; [|discriminate].
    rewrite (read_fraction_app _ _ _ _ Hrest Hf).
    destruct (read_exponent s3) as [[exp s4]|] eqn:He; [|discriminate].
    rewrite (read_exponent_app _ _ _ _ Hrest He).
    destruct (frac || exp).
    + destruct s4; [|discriminate]. now rewrite Hcons.
    + destruct (true && (Z.of_N (N.of_uint d) =? 0)); discriminate.
  - change (String c (r ++ rest)) with (String c r ++ rest)%string.
    rewrite (read_digits_app _ _ (terminated_no_digit _ Hrest)).
    destruct (read_digits (String c r)) as [d s2]. cbn [fst snd].
    destruct (valid_int_part d); [|discriminate].
    destruct (read_fraction s2) as [[frac s3]|] eqn:Hf; [|discriminate].
    rewrite (read_fraction_app _ _ _ _ Hrest Hf).
    destruct (read_exponent s3) as [[exp s4]|] eqn:He; [|discriminate].
    rewrite (read_exponent_app _ _ _ _ Hrest He).
    destruct (frac || exp).
    + destruct s4; [|discriminate].
      change (String c r ++ rest)%string with (String c (r ++ rest)).
      now rewrite Hcons.
    + destruct (false && (Z.of_N (N.of_uint d) =? 0)); discriminate.
Qed.

Lemma parse_value_literal (fuel : nat) (text rest : string) :
  float_literal text = true ->
  terminated rest ->
  parse_value (S fuel) (text ++ rest) = Some (JFloat text, rest).
Proof.
  intros Hl Hrest.
  destruct (float_literal_head _ Hl) as (c & r & E & Hc).
  rewrite <- (parse_number_literal text rest Hl Hrest).
  rewrite E. cbn [append]. now apply parse_value_number_head.
Qed.

(** *** Values written in full *)

Lemma writable_array (items : list json) :
  writable (JArr items) <-> Forall writable items.
Proof.
  induction items as [|x r IH]; [split; constructor|].
  split.
  - intros [Hx Hr]. constructor; [exact Hx | now apply IH].
  - intros H. inversion H as [|? ? Hx Hr]; subst. split; [exact Hx | now apply IH].
Qed.

Lemma writable_object (members : list (string * json)) :
  writable (JObj members)
  <-> NoDup (map fst members) /\ Forall (fun kv => writable (snd kv)) members.
Proof.
  cbn [writable]. apply and_iff_compat_l.
  induction members as [|kv r IH]; [split; constructor|].
  split.
  - intros [Hx Hr]. constructor; [exact Hx | now apply IH].
  - intros H. inversion H as [|? ? Hx Hr]; subst. split; [exact Hx | now apply IH].
Qed.

Lemma printable_writable (v : json) : printable v -> writable v.
Proof.
  induction v as [| b | n | l | s | items IH | members IH | n]
    using json_nested_ind; intros Hp; try exact Hp; try (now destruct Hp).
  - apply printable_array in Hp. apply writable_array.
    induction IH as [|x r Hx _ IHr]; constructor.
    + apply Hx. now inversion Hp.
    + apply IHr. now inversion Hp.
  - apply printable_object in Hp. destruct Hp as [Hnd Hp].
    apply writable_object. split; [exact Hnd|].
    clear Hnd. induction IH as [|x r Hx _ IHr]; constructor.
    + apply Hx. now inversion Hp.
    + apply IHr. now inversion Hp.
Qed.

(** The text of a value starts with a character that is neither white space
    nor a closing bracket. *)
Lemma stringify_head (v : json) (x : string) :
  writable v ->
  exists c r, (stringify v ++ x)%string = String c r
              /\ is_ws c = false /\ Ascii.eqb c "]" = false.
Proof.
  intros Hv. destruct v as [|[|]|n|l|s|items|members|n'];
    try (cbn [stringify append quote]; eexists; eexists;
         (split; [reflexivity | split; reflexivity])).
  - destruct n as [|p|p].
    + cbn [stringify print_int append]; eexists; eexists;
        (split; [reflexivity | split; reflexivity]).
    + cbn [stringify print_int].
      destruct (string_of_uint_head (Pos.to_uint p) x
                  (DecimalPos.Unsigned.to_uint_nonnil p)) as (c & r & E & Hc).
      exists c, r. split; [exact E|]. apply digit_head_facts.
      rewrite Hc. apply orb_true_r.
    + cbn [stringify print_int append]; eexists; eexists;
        (split; [reflexivity | split; reflexivity]).
  - cbn [writable] in Hv.
    destruct (float_literal_head _ Hv) as (c & r & -> & Hc).
    cbn [stringify append]. exists c, (r ++ x)%string.
    split; [reflexivity|]. now apply digit_head_facts.
  - destruct Hv.
Qed.

Lemma stringify_length (v : json) :
  writable v -> (1 <= String.length (stringify v))%nat.
Proof.
  intros Hv. destruct (stringify_head v "" Hv) as (c & r & E & _).
  rewrite string_app_nil_r in E. rewrite E. cbn [String.length]. lia.
Qed.

Lemma join_commas_head (parts : list string) (p : string) (tail : string) :
  exists x, (join_commas (p :: parts) ++ tail = p ++ x)%string.
Proof.
  destruct parts as [|q parts].
  - now exists tail.
  - rewrite join_commas_cons, string_app_assoc. eexists. reflexivity.
Qed.

Lemma parse_elements_items (items : list json) :
  items <> [] ->
  Forall reads_back items -> Forall writable items ->
  forall fuel rest,
    (String.length (join_commas (map stringify items)) < fuel)%nat ->
    parse_elements fuel (join_commas (map stringify items) ++ String "]" rest)
    = Some (items, rest).
Proof.
  induction items as [|x r IH]; [congruence|].
  intros _ Hback Hprint fuel rest Hfuel.
  inversion Hback as [|? ? Hx Hr]; subst.
  inversion Hprint as [|? ? Px Pr]; subst.
  pose proof (stringify_length x Px) as Hlen.
  destruct fuel as [|fuel]; [lia|].
  rewrite parse_elements_S.
  destruct r as [|y r].
  - cbn [map join_commas] in *.
    rewrite Hx; [reflexivity | right; exists rest; auto | lia].
  - cbn [map] in Hfuel |- *. rewrite join_commas_cons in Hfuel |- *.
    rewrite string_length_append in Hfuel. cbn [String.length] in Hfuel.
    rewrite string_app_assoc. cbn [append].
    rewrite Hx; [| right; eexists; left; reflexivity | lia].
    cbn [skip_ws]. change (is_ws ",") with false. cbv iota.
    cbn [expect]. rewrite Ascii.eqb_refl.
    assert (Hne : y :: r <> []) by congruence.
    pose proof (IH Hne Hr Pr fuel rest) as IH'. cbn [map] in IH'.
    rewrite IH' by lia. reflexivity.
Qed.

Lemma member_text_length (kv : string * json) :
  (String.length (stringify (snd kv)) + 3 <= String.length (member_text kv))%nat.
Proof.
  unfold member_text, quote.
  repeat (progress cbn [append String.length fst snd]
          || rewrite string_length_append).
  lia.
Qed.

Lemma parse_members_items (members : list (string * json)) :
  members <> [] ->
  Forall (fun kv => reads_back (snd kv)) members ->
  forall fuel rest,
    (String.length (join_commas (map member_text members)) < fuel)%nat ->
    parse_members fuel (join_commas (map member_text members) ++ String "}" rest)
    = Some (members, rest).
Proof.
  induction members as [|[k v] r IH]; [congruence|].
  intros _ Hback fuel rest Hfuel.
  inversion Hback as [|? ? Hv Hr]; subst. cbn [snd] in Hv.
  pose proof (member_text_length (k, v)) as Hlen. cbn [snd] in Hlen.
  destruct fuel as [|fuel]; [lia|].
  destruct r as [|kv r].
  - cbn [map join_commas] in *. unfold member_text at 1. cbn [fst snd].
    rewrite !string_app_assoc. cbn [append].
    apply parse_members_last.
    apply Hv; [right; exists rest; auto | lia].
  - cbn [map] in Hfuel |- *. rewrite join_commas_cons in Hfuel |- *.
    rewrite string_length_append in Hfuel. cbn [String.length] in Hfuel.
    unfold member_text at 1. cbn [fst snd].
    do 3 (rewrite ?string_app_assoc; cbn [append]).
    apply parse_members_cons.
    + apply Hv; [right; eexists; left; reflexivity | lia].
    + assert (Hne : kv :: r <> []) by congruence.
      pose proof (IH Hne Hr fuel rest) as IH'. cbn [map] in IH'.
      apply IH'. lia.
Qed.

Lemma obj_set_fresh (k : string) (v : json) (acc : list (string * json)) :
  ~ In k (map fst acc) -> obj_set k v acc = acc ++ [(k, v)].
Proof.
  induction acc as [|[k' v'] acc IH]; intros Hk; [reflexivity|].
  cbn [obj_set]. cbn [map fst In] in Hk.
  destruct (String.eqb_spec k k') as [->|Hne]; [tauto|].
  cbn [app]. rewrite IH by tauto. reflexivity.
Qed.

Lemma fold_obj_set_nodup (members acc : list (string * json)) :
  NoDup (map fst (acc ++ members)) ->
  fold_left (fun o kv => obj_set (fst kv) (snd kv) o) members acc
  = acc ++ members.
Proof.
  revert acc. induction members as [|[k v] r IH]; intros acc Hnd.
  - now rewrite List.app_nil_r.
  - cbn [fold_left fst snd].
    rewrite obj_set_fresh.
    + rewrite IH; rewrite <- List.app_assoc; [reflexivity | exact Hnd].
    + rewrite map_app in Hnd. cbn [map fst] in Hnd.
      apply NoDup_remove_2 in Hnd. intros Hin. apply Hnd.
      apply in_or_app. now left.
Qed.

Lemma writable_reads_back (v : json) : writable v -> reads_back v.
Proof.
  induction v as [| b | n | l | s | items IH | members IH | n]
    using json_nested_ind;
    intros Hp fuel rest Hrest Hfuel.
  - destruct fuel; [cbn in Hfuel; lia | reflexivity].
  - destruct fuel; [destruct b; cbn in Hfuel; lia | destruct b; reflexivity].
  - pose proof (stringify_length (JNum n) I).
    destruct fuel; [lia|]. now apply parse_value_int.
  - pose proof (stringify_length (JFloat l) Hp).
    destruct fuel; [lia|]. now apply parse_value_literal.
  - destruct fuel; [cbn in Hfuel; lia|]. apply parse_value_string.
  - apply writable_array in Hp.
    assert (Hback : Forall reads_back items).
    { clear Hfuel. induction IH as [|x r Hx _ IHr]; constructor.
      - apply Hx. now inversion Hp.
      - apply IHr. now inversion Hp. }
    revert Hfuel.
    change (stringify (JArr items))
      with ("[" ++ join_commas (map stringify items) ++ "]")%string.
    cbn [append String.length]. rewrite string_length_append.
    cbn [String.length]. intros Hfuel.
    destruct fuel as [|fuel]; [lia|].
    rewrite string_app_assoc. cbn [append].
    cbn [parse_value skip_ws]. change (is_ws "[") with false. cbv iota.
    rewrite Ascii.eqb_refl.
    destruct items as [|x r]; [reflexivity|].
    assert (Hhead : expect "]" (skip_ws (join_commas (map stringify (x :: r))
                                          ++ String "]" rest)) = None).
    { cbn [map].
      destruct (join_commas_head (map stringify r) (stringify x) (String "]" rest))
        as [tail ->].
      destruct (stringify_head x tail) as (c & t & E & Hws & Hc);
        [now inversion Hp|].
      rewrite E. cbn [skip_ws]. rewrite Hws. cbn [expect]. now rewrite Hc. }
    rewrite Hhead, parse_elements_items;
      [reflexivity | congruence | exact Hback | exact Hp | lia].
  - apply writable_object in Hp. destruct Hp as [Hnd Hp].
    assert (Hback : Forall (fun kv => reads_back (snd kv)) members).
    { clear Hfuel Hnd. induction IH as [|x r Hx _ IHr]; constructor.
      - apply Hx. now inversion Hp.
      - apply IHr. now inversion Hp. }
    revert Hfuel.
    change (stringify (JObj members))
      with ("{" ++ join_commas (map member_text members) ++ "}")%string.
    cbn [append String.length]. rewrite string_length_append.
    cbn [String.length]. intros Hfuel.
    destruct fuel as [|fuel]; [lia|].
    rewrite string_app_assoc. cbn [append].
    destruct members as [|[k x] r]; [reflexivity|].
    rewrite parse_value_S_object.
    + rewrite parse_members_items; [| congruence | exact Hback | lia].
      now rewrite (fold_obj_set_nodup _ []).
    + cbn [map].
      destruct (join_commas_head (map member_text r) (member_text (k, x))
                                 (String "}" rest)) as [tail ->].
      unfold member_text, quote. cbn [append skip_ws fst].
      change (is_ws dquote) with false. reflexivity.
  - destruct Hp.
Qed.

Theorem stringify_reads_back (v : json) : printable v -> reads_back v.
Proof. intros Hp. now apply writable_reads_back, printable_writable. Qed.

(** [JSON.parse(JSON.stringify(v))] is [v], numbers held by their literal
    included. *)
Lemma JSON_parse_stringify_writable (v : json) :
  writable v -> JSON_parse (stringify v) = Some v.
Proof.
  intros Hp. unfold JSON_parse.
  pose proof (writable_reads_back v Hp (S (String.length (stringify v))) ""
                (or_introl eq_refl)) as H.
  rewrite string_app_nil_r in H. rewrite H by lia. reflexivity.
Qed.

(** [JSON.parse(JSON.stringify(v))] is [v]. *)
Theorem JSON_parse_stringify (v : json) :
  printable v -> JSON_parse (stringify v) = Some v.
Proof.
  intros Hp. unfold JSON_parse.
  pose proof (stringify_reads_back v Hp (S (String.length (stringify v))) ""
                (or_introl eq_refl)) as H.
  rewrite string_app_nil_r in H. rewrite H by lia. reflexivity.
Qed.

(** ** The service *)

(** *** The three ways a call of [cursorSearch] can go *)

Section Runs.

Variable client : Engine.
Variable indexPrefix : string.

Lemma cursorSearch_bad_cursor (input : CursorSearchInput) (w : World) (e : JsError) :
  decode_input_cursor input = Thrown e ->
  cursorSearch client indexPrefix input w = (Thrown e, w).
Proof. intros H. unfold cursorSearch, bind, lift. now rewrite H. Qed.

Lemma cursorSearch_answered (input : CursorSearchInput) (w : World)
  (searchAfter : option json) (response : SearchResponse) :
  decode_input_cursor input = Returned searchAfter ->
  client (engine_calls w) (search_request indexPrefix input searchAfter)
  = Returned response ->
  cursorSearch client indexPrefix input w
  = (Returned (page_of_response (effective_take input) (buildSort (sort input))
                                response),
     {| engine_calls :=
          engine_calls w ++ [search_request indexPrefix input searchAfter];
        console := console w |}).
Proof.
  intros Hd Hc. unfold cursorSearch, bind at 1, lift. rewrite Hd.
  unfold try_catch, bind, client_search. now rewrite Hc.
Qed.

Lemma cursorSearch_engine_failed (input : CursorSearchInput) (w : World)
  (searchAfter : option json) (e : JsError) :
  decode_input_cursor input = Returned searchAfter ->
  client (engine_calls w) (search_request indexPrefix input searchAfter)
  = Thrown e ->
  cursorSearch client indexPrefix input w
  = (Thrown e,
     {| engine_calls :=
          engine_calls w ++ [search_request indexPrefix input searchAfter];
        console := console w ++ [("[DeepPagination] Search failed:", e)] |}).
Proof.
  intros Hd Hc. unfold cursorSearch, bind at 1, lift. rewrite Hd.
  unfold try_catch, bind, client_search. now rewrite Hc.
Qed.

(** A page comes from an answer of the engine. *)
Lemma cursorSearch_page_inv (input : CursorSearchInput) (w w' : World)
  (page : CursorSearchResult SearchResult.t) :
  cursorSearch client indexPrefix input w = (Returned page, w') ->
  exists searchAfter response,
    decode_input_cursor input = Returned searchAfter
    /\ client (engine_calls w) (search_request indexPrefix input searchAfter)
       = Returned response
    /\ page = page_of_response (effective_take input) (buildSort (sort input))
                               response.
Proof.
  intros H.
  destruct (decode_input_cursor input) as [sa|e] eqn:Hd.
  - destruct (client (engine_calls w) (search_request indexPrefix input sa))
      as [response|e] eqn:Hc.
    + rewrite (cursorSearch_answered _ _ _ _ Hd Hc) in H.
      exists sa, response. repeat split; congruence.
    + rewrite (cursorSearch_engine_failed _ _ _ _ Hd Hc) in H. discriminate.
  - rewrite (cursorSearch_bad_cursor _ _ _ Hd) in H. discriminate.
Qed.

End Runs.

(** *** Page size *)

Lemma effective_take_bounds (input : CursorSearchInput) :
  effective_take input <= 1000.
Proof. unfold effective_take. lia. Qed.

Lemma effective_take_positive (input : CursorSearchInput) :
  (forall t, take input = Some t -> 0 <= t) -> 1 <= effective_take input.
Proof.
  intros H. unfold effective_take, or_number.
  destruct (take input) as [t|]; [|lia].
  specialize (H t eq_refl). destruct (Z.eqb_spec t 0); lia.
Qed.

(** *** Slicing *)

Lemma slice0_firstn {A} (l : list A) (e : Z) :
  0 <= e -> slice0 l e = firstn (Z.to_nat e) l.
Proof.
  intros He. unfold slice0.
  destruct (Z.ltb_spec e 0); [lia|].
  destruct (Z.min_spec e (Z.of_nat (List.length l))) as [[Hlt ->]|[Hge ->]].
  - reflexivity.
  - rewrite Nat2Z.id. rewrite firstn_all.
    symmetry. apply firstn_all2. lia.
Qed.

Lemma slice0_length {A} (l : list A) (e : Z) :
  (List.length (slice0 l e) <= List.length l)%nat.
Proof. unfold slice0. rewrite length_firstn. lia. Qed.

Lemma retained_length (take : Z) (hits : list Hit.t) :
  0 <= take -> Z.of_nat (List.length (retained take hits)) <= take.
Proof.
  intros Ht. unfold retained.
  destruct (Z.gtb_spec (Z.of_nat (List.length hits)) take).
  - rewrite slice0_firstn by lia. rewrite length_firstn. lia.
  - lia.
Qed.

Lemma retained_has_more (take : Z) (hits : list Hit.t) :
  0 <= take -> take < Z.of_nat (List.length hits) ->
  retained take hits = firstn (Z.to_nat take) hits
  /\ Z.of_nat (List.length (retained take hits)) = take.
Proof.
  intros Ht Hlt. unfold retained.
  destruct (Z.gtb_spec (Z.of_nat (List.length hits)) take); [|lia].
  rewrite slice0_firstn by lia. split; [reflexivity|].
  rewrite length_firstn. lia.
Qed.

Lemma nth_error_firstn_last {A} (l : list A) (n : nat) :
  (1 <= n <= List.length l)%nat ->
  nth_error (firstn n l) (List.length (firstn n l) - 1) = nth_error l (n - 1).
Proof.
  intros H. rewrite length_firstn, Nat.min_l by lia.
  rewrite nth_error_firstn.
  destruct (Nat.ltb_spec (n - 1) n); [reflexivity | lia].
Qed.

(** *** The page built from an answer *)

Lemma page_has_more (take : Z) (sort : list SortClause) (response : SearchResponse) :
  hasMore (page_of_response take sort response) = true
  <-> take < Z.of_nat (List.length (hits response)).
Proof.
  cbn [page_of_response hasMore].
  destruct (Z.gtb_spec (Z.of_nat (List.length (hits response))) take);
    split; intros; (lia || congruence).
Qed.

Lemma page_items (take : Z) (sort : list SortClause) (response : SearchResponse) :
  items (page_of_response take sort response)
  = map map_hit (retained take (hits response)).
Proof. reflexivity. Qed.

Lemma page_next_cursor (take : Z) (sort : list SortClause)
  (response : SearchResponse) :
  nextCursor (page_of_response take sort response)
  = next_cursor (hasMore (page_of_response take sort response))
                (retained take (hits response)) sort.
Proof. reflexivity. Qed.

Lemma next_cursor_present (more : bool) (hs : list Hit.t) (sort : list SortClause) :
  next_cursor more hs sort <> None <-> more = true /\ hs <> [].
Proof.
  unfold next_cursor. destruct more; cbn [andb].
  - destruct hs as [|h hs].
    + cbn. split; [congruence | intros [_ H]; congruence].
    + change (0 <? List.length (h :: hs))%nat with true. cbv iota.
      destruct (nth_error (h :: hs) (List.length (h :: hs) - 1)) eqn:E.
      * split; [intros _; split; congruence | congruence].
      * exfalso. apply nth_error_None in E. cbn [List.length] in E. lia.
  - split; [congruence | intros [H _]; congruence].
Qed.

Lemma next_cursor_last (hs : list Hit.t) (sort : list SortClause) (lastHit : Hit.t) :
  nth_error hs (List.length hs - 1) = Some lastHit ->
  next_cursor true hs sort
  = Some (encodeCursor {| values := or_empty (Hit.sort lastHit);
                          sortFields := map sort_field sort |}).
Proof.
  intros H. unfold next_cursor. cbn [andb].
  destruct hs as [|h hs]; [discriminate H|].
  change (0 <? List.length (h :: hs))%nat with true. cbv iota.
  now rewrite H.
Qed.

(** C1 (as amended).  A request whose cursor is absent or decodes sends the
    engine exactly one query, for [take + 1] documents in the composed
    order, resumed after the cursor's values, [take] being the effective
    page size; this holds for every requested size, negative ones
    included.  When the requested size is not negative and the
    engine answers: [hasMore] holds iff more than [take] documents came back
    (iff exactly [take + 1] did, for an engine that keeps to the size); then
    the first [take] documents are retained, the extra one is dropped, and
    [nextCursor] encodes the sort values of the last retained document with
    the names of the sort fields; otherwise every document is returned and
    there is no cursor; never more than [take] documents are returned. *)
Theorem C1_fetch_page (client : Engine) (indexPrefix : string)
  (input : CursorSearchInput) (w : World) (searchAfter : option json) :
  decode_input_cursor input = Returned searchAfter ->
  let pageSize := effective_take input in
  let request := search_request indexPrefix input searchAfter in
  engine_calls (snd (cursorSearch client indexPrefix input w))
  = engine_calls w ++ [request]
  /\ Request.size request = pageSize + 1
  /\ Request.sort request = buildSort (sort input)
  /\ Request.search_after request = body_property (optional_values searchAfter)
  /\ ((forall t, take input = Some t -> 0 <= t) ->
      forall response,
        client (engine_calls w) request = Returned response ->
        let n := Z.of_nat (List.length (hits response)) in
        exists page,
          fst (cursorSearch client indexPrefix input w) = Returned page
          /\ (hasMore page = true <-> pageSize < n)
          /\ (n <= Request.size request -> (hasMore page = true <-> n = pageSize + 1))
          /\ (hasMore page = true ->
              items page = map map_hit (firstn (Z.to_nat pageSize) (hits response))
              /\ Z.of_nat (List.length (items page)) = pageSize
              /\ exists lastHit,
                   nth_error (hits response) (Z.to_nat pageSize - 1) = Some lastHit
                   /\ nextCursor page
                      = Some (encodeCursor
                                {| values := or_empty (Hit.sort lastHit);
                                   sortFields :=
                                     map sort_field (buildSort (sort input)) |}))
          /\ (hasMore page = false ->
              items page = map map_hit (hits response)
              /\ nextCursor page = None)
          /\ Z.of_nat (List.length (items page)) <= pageSize).
Proof.
  intros Hd take0 request.
  split; [|split; [reflexivity | split; [reflexivity | split; [reflexivity|]]]].
  - destruct (client (engine_calls w) request) as [response|e] eqn:Hc.
    + now rewrite (cursorSearch_answered _ _ _ _ _ _ Hd Hc).
    + now rewrite (cursorSearch_engine_failed _ _ _ _ _ _ Hd Hc).
  - intros Htake response Hc n.
    pose proof (effective_take_positive input Htake) as Hpos.
    fold take0 in Hpos.
    rewrite (cursorSearch_answered _ _ _ _ _ _ Hd Hc). cbn [fst].
    eexists. split; [reflexivity|].
    fold take0.
    set (page := page_of_response take0 (buildSort (sort input)) response).
    pose proof (page_has_more take0 (buildSort (sort input)) response) as Hmore.
    fold page n in Hmore.
    assert (Hsize : Request.size request = take0 + 1) by reflexivity.
    split; [exact Hmore|]. split; [|split; [|split]].
    + intros Hn. rewrite Hmore. lia.
    + intros H. apply Hmore in H.
      destruct (retained_has_more take0 (hits response)) as [Hr Hl];
        [lia | exact H |].
      unfold page. rewrite page_items, page_next_cursor, length_map, Hl, !Hr.
      split; [reflexivity | split; [reflexivity|]].
      destruct (nth_error (hits response) (Z.to_nat take0 - 1))
        as [lastHit|] eqn:E.
      * exists lastHit. split; [reflexivity|].
        assert (Hm : hasMore (page_of_response take0 (buildSort (sort input))
                                               response) = true)
          by (apply Hmore; exact H).
        rewrite Hm. apply next_cursor_last.
        rewrite nth_error_firstn_last by (fold n in H; lia). exact E.
      * exfalso. apply nth_error_None in E. fold n in H. lia.
    + intros H.
      assert (Hn : ~ take0 < n) by (intros Hlt; apply Hmore in Hlt; congruence).
      unfold page. rewrite page_items, page_next_cursor. fold page. rewrite H.
      split; [|reflexivity].
      unfold retained.
      destruct (Z.gtb_spec (Z.of_nat (List.length (hits response))) take0);
        [unfold n in Hn; lia | reflexivity].
    + unfold page. rewrite page_items, length_map.
      apply retained_length. lia.
Qed.

Lemma C1_fetch_page_witness :
  let run := cursorSearch (static_engine catalogue) "gbros" two_by_name
                          empty_world in
  decode_input_cursor two_by_name = Returned None
  /\ (forall t, take two_by_name = Some t -> 0 <= t)
  /\ engine_calls (snd run)
     = engine_calls empty_world ++ [search_request "gbros" two_by_name None]
  /\ exists page,
       fst run = Returned page
       /\ hasMore page = true
       /\ List.length (items page) = 2%nat.
Proof.
  intros run.
  assert (H1 : forall t, take two_by_name = Some t -> 0 <= t).
  { intros t H. injection H as <-. lia. }
  assert (H2 : decode_input_cursor two_by_name = Returned None) by reflexivity.
  destruct (C1_fetch_page (static_engine catalogue) "gbros" two_by_name
                          empty_world None H2)
    as (Hcalls & _ & _ & _ & Hpage).
  destruct (Hpage H1 {| hits := catalogue; total := TotalObject 3 |} eq_refl)
    as (page & Hrun & Hmore & _ & Hfull & _).
  assert (Hm : hasMore page = true) by (apply Hmore; reflexivity).
  destruct (Hfull Hm) as (_ & Hlen & _).
  split; [exact H2 | split; [exact H1 | split; [exact Hcalls|]]].
  exists page. split; [exact Hrun | split; [exact Hm|]].
  apply Nat2Z.inj. exact Hlen.
Defined.

(** C1 as stated fails for the requested size -1: the effective size is -1,
    the engine is asked for 0 documents and returns 0, [hasMore] is true, yet
    no document is dropped, no cursor is produced, and the 0 documents
    returned are more than the size. *)
Lemma C1_counterexample :
  let input := set_take first_page (Some (-1)) in
  exists page w',
    cursorSearch (static_engine catalogue) "gbros" input empty_world
    = (Returned page, w')
    /\ map Request.size (engine_calls w') = [effective_take input + 1]
    /\ hasMore page = true
    /\ nextCursor page = None
    /\ ~ Z.of_nat (List.length (items page)) <= effective_take input.
Proof.
  eexists. eexists. split; [vm_compute; reflexivity|].
  split; [reflexivity | split; [reflexivity | split; [reflexivity|]]].
  vm_compute. congruence.
Qed.

(** C3 (as amended).  In every page the service returns, [nextCursor] is
    present iff [hasMore] is true and at least one item is retained; so a
    page with [hasMore] false, and an empty page, carry no cursor; and when
    the requested size is not negative, [nextCursor] is present iff
    [hasMore] is true. *)
Theorem C3_next_cursor_iff_has_more (client : Engine) (indexPrefix : string)
  (input : CursorSearchInput) (w w' : World)
  (page : CursorSearchResult SearchResult.t) :
  cursorSearch client indexPrefix input w = (Returned page, w') ->
  (nextCursor page <> None <-> hasMore page = true /\ items page <> [])
  /\ (hasMore page = false -> nextCursor page = None)
  /\ (items page = [] -> nextCursor page = None)
  /\ ((forall t, take input = Some t -> 0 <= t) ->
      (nextCursor page <> None <-> hasMore page = true)).
Proof.
  intros Hrun.
  destruct (cursorSearch_page_inv _ _ _ _ _ _ Hrun)
    as (sa & response & Hd & Hc & ->).
  set (take0 := effective_take input).
  set (srt := buildSort (sort input)).
  assert (Hiff : nextCursor (page_of_response take0 srt response) <> None
                 <-> hasMore (page_of_response take0 srt response) = true
                     /\ items (page_of_response take0 srt response) <> []).
  { rewrite page_next_cursor, page_items, next_cursor_present.
    split; intros [H1 H2]; (split; [exact H1|]).
    - intros E. apply map_eq_nil in E. contradiction.
    - intros E. apply H2. now rewrite E. }
  split; [exact Hiff|]. split; [|split].
  - intros H. rewrite page_next_cursor, H. reflexivity.
  - rewrite page_items, page_next_cursor. intros E.
    apply map_eq_nil in E. rewrite E.
    unfold next_cursor. now rewrite andb_false_r.
  - intros Htake. pose proof (effective_take_positive input Htake) as Hpos.
    fold take0 in Hpos. rewrite Hiff.
    split; [intros [H _]; exact H|]. intros H. split; [exact H|].
    apply page_has_more in H.
    rewrite page_items.
    destruct (retained_has_more take0 (hits response)) as [_ Hl]; [lia | exact H |].
    intros E. apply map_eq_nil in E. rewrite E in Hl. cbn in Hl. lia.
Qed.

Lemma C3_next_cursor_iff_has_more_witness :
  exists page w',
    cursorSearch (static_engine catalogue) "gbros" two_by_name empty_world
    = (Returned page, w')
    /\ (nextCursor page <> None <-> hasMore page = true /\ items page <> []).
Proof.
  eexists. eexists.
  assert (H : cursorSearch (static_engine catalogue) "gbros" two_by_name empty_world
              = (Returned (page_of_response 2 (buildSort (sort two_by_name))
                   {| hits := firstn 3 catalogue; total := TotalObject 3 |}),
                 {| engine_calls := [search_request "gbros" two_by_name None];
                    console := [] |})) by reflexivity.
  split; [exact H|].
  exact (proj1 (C3_next_cursor_iff_has_more _ _ _ _ _ _ H)).
Defined.

(** C3 as stated fails for the requested size -1 over an empty index:
    [hasMore] is true and there is no [nextCursor]. *)
Lemma C3_counterexample :
  exists page w',
    cursorSearch (static_engine []) "gbros" (set_take first_page (Some (-1)))
                 empty_world
    = (Returned page, w')
    /\ hasMore page = true
    /\ nextCursor page = None.
Proof.
  eexists. eexists. split; [vm_compute; reflexivity|].
  split; reflexivity.
Qed.

(** *** Requests that differ only in a field that is not read *)

Lemma cursorSearch_same_take (client : Engine) (indexPrefix : string)
  (input : CursorSearchInput) (t : option Z) (w : World) :
  effective_take (set_take input t) = effective_take input ->
  cursorSearch client indexPrefix (set_take input t) w
  = cursorSearch client indexPrefix input w.
Proof.
  intros H. unfold cursorSearch, search_request, decode_input_cursor.
  rewrite H. reflexivity.
Qed.

(** C6.  A requested size above 1000 is clamped to 1000 without an error:
    the effective size is 1000, the call goes exactly as the call with the
    size 1000 does, a page it returns has at most 1000 items, and it returns
    a page whenever the cursor is absent or decodes and the engine
    answers. *)
Theorem C6_page_size_clamped (client : Engine) (indexPrefix : string)
  (input : CursorSearchInput) (t : Z) (w : World) :
  take input = Some t -> 1000 < t ->
  effective_take input = 1000
  /\ cursorSearch client indexPrefix input w
     = cursorSearch client indexPrefix (set_take input (Some 1000)) w
  /\ (forall page w',
        cursorSearch client indexPrefix input w = (Returned page, w') ->
        (List.length (items page) <= 1000)%nat)
  /\ (forall searchAfter response,
        decode_input_cursor input = Returned searchAfter ->
        client (engine_calls w) (search_request indexPrefix input searchAfter)
        = Returned response ->
        exists page w',
          cursorSearch client indexPrefix input w = (Returned page, w')).
Proof.
  intros Ht Hbig.
  assert (Heff : effective_take input = 1000).
  { unfold effective_take, or_number. rewrite Ht.
    destruct (Z.eqb_spec t 0); lia. }
  split; [exact Heff|]. split; [|split].
  - symmetry. apply cursorSearch_same_take. now rewrite Heff.
  - intros page w' Hrun.
    destruct (cursorSearch_page_inv _ _ _ _ _ _ Hrun)
      as (sa & response & _ & _ & ->).
    rewrite page_items, length_map, Heff.
    pose proof (retained_length 1000 (hits response)). lia.
  - intros sa response Hd Hc.
    rewrite (cursorSearch_answered _ _ _ _ _ _ Hd Hc). eauto.
Qed.

Lemma C6_page_size_clamped_witness :
  take (set_take first_page (Some 5000)) = Some 5000 /\ 1000 < 5000
  /\ effective_take (set_take first_page (Some 5000)) = 1000.
Proof.
  split; [reflexivity | split; [lia|]].
  exact (proj1 (C6_page_size_clamped (static_engine catalogue) "gbros"
                  (set_take first_page (Some 5000)) 5000 empty_world
                  eq_refl eq_refl)).
Defined.

(** C9.  When the page size is absent or 0 the effective page size is 100
    and the call goes exactly as the call with the size 100 does: whenever
    the cursor is absent or decodes, the one request that reaches the
    engine asks for 101 documents; and when the engine answers, the page
    holds the first 100 of the documents it sent, [hasMore] tells whether
    there were more than 100, and the page is empty only if the engine sent
    no document: asking for 0 items does not give an empty page. *)
Theorem C9_default_page_size (client : Engine) (indexPrefix : string)
  (input : CursorSearchInput) (w : World) :
  take input = None \/ take input = Some 0 ->
  let run := cursorSearch client indexPrefix input w in
  effective_take input = 100
  /\ run = cursorSearch client indexPrefix (set_take input (Some 100)) w
  /\ (forall searchAfter,
        decode_input_cursor input = Returned searchAfter ->
        exists request,
          engine_calls (snd run) = engine_calls w ++ [request]
          /\ Request.size request = 101
          /\ forall response,
               client (engine_calls w) request = Returned response ->
               exists page,
                 fst run = Returned page
                 /\ items page = map map_hit (firstn 100 (hits response))
                 /\ (hasMore page = true
                     <-> (100 < List.length (hits response))%nat)
                 /\ (items page = [] <-> hits response = [])).
Proof.
  intros H run. unfold run.
  assert (Heff : effective_take input = 100).
  { unfold effective_take. destruct H as [-> | ->]; reflexivity. }
  split; [exact Heff|]. split.
  - symmetry. apply cursorSearch_same_take. now rewrite Heff.
  - intros sa Hd. exists (search_request indexPrefix input sa).
    split; [|split].
    + destruct (client (engine_calls w) (search_request indexPrefix input sa))
        as [response|e] eqn:Hc.
      * now rewrite (cursorSearch_answered _ _ _ _ _ _ Hd Hc).
      * now rewrite (cursorSearch_engine_failed _ _ _ _ _ _ Hd Hc).
    + cbn [search_request Request.size]. now rewrite Heff.
    + intros response Hc.
      rewrite (cursorSearch_answered _ _ _ _ _ _ Hd Hc). cbn [fst].
      eexists. split; [reflexivity|]. rewrite Heff.
      assert (Hkept : retained 100 (hits response)
                      = firstn 100 (hits response)).
      { unfold retained.
        destruct (Z.gtb_spec (Z.of_nat (List.length (hits response))) 100).
        - now rewrite slice0_firstn by lia.
        - symmetry. apply firstn_all2. lia. }
      rewrite page_items, Hkept. split; [reflexivity|]. split.
      * rewrite page_has_more. lia.
      * destruct (hits response); cbn; split; congruence.
Qed.

Lemma C9_default_page_size_witness :
  let input := set_take first_page (Some 0) in
  let run := cursorSearch (static_engine catalogue) "gbros" input empty_world in
  (take input = None \/ take input = Some 0)
  /\ decode_input_cursor input = Returned None
  /\ exists request page,
       engine_calls (snd run) = engine_calls empty_world ++ [request]
       /\ Request.size request = 101
       /\ fst run = Returned page
       /\ items page = map map_hit catalogue.
Proof.
  intros input run.
  assert (H : take input = None \/ take input = Some 0)
    by (right; reflexivity).
  assert (Hd : decode_input_cursor input = Returned None) by reflexivity.
  destruct (C9_default_page_size (static_engine catalogue) "gbros" input
                                 empty_world H)
    as (_ & _ & Hrun).
  destruct (Hrun None Hd) as (request & Hcalls & Hsize & Hpage).
  assert (Hreq : request = search_request "gbros" input None).
  { cbn in Hcalls. now injection Hcalls as <-. }
  destruct (Hpage {| hits := catalogue; total := TotalObject 3 |})
    as (page & Hfst & Hitems & _).
  { rewrite Hreq. reflexivity. }
  split; [exact H | split; [exact Hd|]].
  exists request, page.
  split; [exact Hcalls | split; [exact Hsize | split; [exact Hfst|]]].
  exact Hitems.
Defined.

(** *** [buildSort] *)

Lemma requested_sort_fields (sortInput : option SortInput) (c : SortClause) :
  In c (requested_sort sortInput) ->
  sort_field c = "productName.keyword" \/ sort_field c = "priceWithTax".
Proof.
  unfold requested_sort. destruct sortInput as [si|]; [|intros []].
  intros H. apply in_app_or in H.
  destruct H as [H|H]; [destruct (name si) | destruct (price si)];
    cbn in H; intuition (subst; auto).
Qed.

(** C4 (as amended).  The composed sort is the requested entries, [name]
    first and [price] second, each with the caller's direction in lower
    case, followed by two tiebreakers, [productId] and [productVariantId],
    both ascending whatever the other directions are; [createdAt] is not
    used. *)
Theorem C4_build_sort (sortInput : option SortInput) :
  buildSort sortInput = requested_sort sortInput ++ tiebreakers
  /\ requested_sort sortInput
     = match sortInput with
       | Some si =>
           match name si with
           | Some o => [{| sort_field := "productName.keyword";
                           order := toLowerCase o |}]
           | None => []
           end
           ++ match price si with
              | Some o => [{| sort_field := "priceWithTax";
                              order := toLowerCase o |}]
              | None => []
              end
       | None => []
       end
  /\ List.length (buildSort sortInput)
     = (List.length (requested_sort sortInput) + 2)%nat
  /\ (forall c, In c (buildSort sortInput) -> sort_field c <> "createdAt").
Proof.
  assert (Hno : existsb (fun s => String.eqb (sort_field s) "productId")
                        (requested_sort sortInput) = false).
  { apply not_true_is_false. intros H. apply existsb_exists in H.
    destruct H as (c & Hin & Hc). apply String.eqb_eq in Hc.
    destruct (requested_sort_fields _ _ Hin) as [E|E]; rewrite E in Hc;
      discriminate. }
  assert (Hb : buildSort sortInput = requested_sort sortInput ++ tiebreakers).
  { unfold buildSort. rewrite Hno. cbn [negb]. now rewrite <- app_assoc. }
  split; [exact Hb|]. split; [reflexivity|]. split.
  - rewrite Hb, length_app. reflexivity.
  - intros c Hin. rewrite Hb in Hin. apply in_app_or in Hin.
    destruct Hin as [Hin|Hin].
    + destruct (requested_sort_fields _ _ Hin) as [E|E]; rewrite E; discriminate.
    + cbn in Hin. destruct Hin as [<-|[<-|[]]]; discriminate.
Qed.

(** C4 as stated fails: for a sort by descending price the composed sort has
    two entries after the requested one, not one. *)
Lemma C4_counterexample :
  let sortInput := sort_by None (Some DESC) in
  requested_sort sortInput = [{| sort_field := "priceWithTax"; order := desc |}]
  /\ buildSort sortInput
     = [{| sort_field := "priceWithTax"; order := desc |};
        {| sort_field := "productId"; order := asc |};
        {| sort_field := "productVariantId"; order := asc |}]
  /\ ~ exists tiebreaker,
         buildSort sortInput = requested_sort sortInput ++ [tiebreaker].
Proof.
  split; [reflexivity | split; [reflexivity|]].
  intros [tb H]. discriminate H.
Qed.

(** *** [buildQuery] *)

Section BuildQuery.

Variable text_match : string -> list string -> Source.t -> bool.

Lemma matches_facet_term (d : Source.t) (id : string) :
  matches text_match d (term_query "facetValueIds" id) = has_facet d id.
Proof. reflexivity. Qed.

Lemma forallb_facet_terms (d : Source.t) (ids : list string) :
  forallb (matches text_match d) (map (term_query "facetValueIds") ids)
  = forallb (has_facet d) ids.
Proof. induction ids as [|id ids IH]; [reflexivity|]. cbn [map forallb]. now rewrite IH. Qed.

Lemma existsb_facet_terms (d : Source.t) (ids : list string) :
  existsb (matches text_match d) (map (term_query "facetValueIds") ids)
  = existsb (has_facet d) ids.
Proof. induction ids as [|id ids IH]; [reflexivity|]. cbn [map existsb]. now rewrite IH. Qed.

Lemma matches_term_clauses (input : CursorSearchInput) (d : Source.t) :
  forallb (matches text_match d)
          (if (List.length (term_clauses input) =? 0)%nat
           then term_clauses input ++ [match_all] else term_clauses input)
  = text_group text_match input d.
Proof.
  unfold term_clauses, text_group, truthy_string.
  destruct (term input) as [t|]; [|reflexivity].
  destruct (String.eqb t ""); cbn; [reflexivity | apply andb_true_r].
Qed.

Lemma matches_facet_clauses (input : CursorSearchInput) (d : Source.t) :
  forallb (matches text_match d) (facet_clauses input) = facet_group input d.
Proof.
  unfold facet_clauses, facet_group.
  destruct (facetValueIds input) as [[|id ids]|]; try reflexivity.
  change (0 <? List.length (id :: ids))%nat with true. cbv iota.
  destruct (facetValueOperator input) as [[|]|].
  - cbn [forallb matches]. rewrite forallb_facet_terms.
    cbn [map forallb]. now rewrite !andb_true_r.
  - cbn [forallb]. rewrite andb_true_r.
    change (matches text_match d
              (bool_query [] [] (map (fun id0 => term_query "facetValueIds" id0)
                                     (id :: ids))))
      with (existsb (matches text_match d)
              (map (term_query "facetValueIds") (id :: ids))).
    apply existsb_facet_terms.
  - cbn [forallb]. rewrite andb_true_r.
    change (matches text_match d
              (bool_query [] [] (map (fun id0 => term_query "facetValueIds" id0)
                                     (id :: ids))))
      with (existsb (matches text_match d)
              (map (term_query "facetValueIds") (id :: ids))).
    apply existsb_facet_terms.
Qed.

Lemma matches_collection_clauses (input : CursorSearchInput) (d : Source.t) :
  forallb (matches text_match d) (collection_clauses input)
  = collection_group input d.
Proof.
  unfold collection_clauses, collection_group, truthy_string.
  destruct (collectionId input) as [c|]; [|reflexivity].
  destruct (String.eqb c ""); cbn; [reflexivity | apply andb_true_r].
Qed.

End BuildQuery.

(** C7.  With no filter the query is [bool { must: [match_all] }] and
    selects every document.  In general the query is one [bool] query whose
    [must] holds the text group (or [match_all]) and whose [filter] holds the
    facet group and the collection group, an absent group contributing no
    clause; the facet group is a nested [bool] with the terms under [must]
    for AND and under [should] otherwise; and the documents selected are
    those that satisfy every supplied group. *)
Theorem C7_build_query
  (text_match : string -> list string -> Source.t -> bool)
  (input : CursorSearchInput) (d : Source.t) :
  (forall operator slug group size token sortInput,
     let unfiltered :=
       {| term := None; facetValueIds := None; facetValueOperator := operator;
          collectionId := None; collectionSlug := slug;
          groupByProduct := group; take := size; cursor := token;
          sort := sortInput |} in
     buildQuery unfiltered = bool_query [match_all] [] []
     /\ matches text_match d (buildQuery unfiltered) = true)
  /\ buildQuery input
     = bool_query
         (match term input with
          | Some t =>
              if String.eqb t "" then [match_all]
              else [multi_match t ["productName^3"; "description"; "sku^2"]
                                "best_fields" "AUTO"]
          | None => [match_all]
          end)
         (match facetValueIds input with
          | Some (id :: ids) =>
              match facetValueOperator input with
              | Some AND =>
                  [bool_query (map (term_query "facetValueIds") (id :: ids)) [] []]
              | Some OR | None =>
                  [bool_query [] [] (map (term_query "facetValueIds") (id :: ids))]
              end
          | Some [] | None => []
          end
          ++ match collectionId input with
             | Some c =>
                 if String.eqb c "" then [] else [term_query "collectionIds" c]
             | None => []
             end)
         []
  /\ matches text_match d (buildQuery input) = selected_by text_match input d.
Proof.
  split; [intros; split; reflexivity | split].
  - unfold buildQuery, term_clauses, facet_clauses, collection_clauses,
      truthy_string.
    f_equal.
    + destruct (term input) as [t|]; [|reflexivity].
      destruct (String.eqb t ""); reflexivity.
    + f_equal.
      * destruct (facetValueIds input) as [[|id ids]|]; reflexivity.
      * destruct (collectionId input) as [c|]; [|reflexivity].
        destruct (String.eqb c ""); reflexivity.
  - unfold buildQuery, selected_by. cbn [matches].
    rewrite forallb_app, matches_term_clauses, matches_facet_clauses,
      matches_collection_clauses.
    assert (Hshould :
      match (if (List.length (term_clauses input) =? 0)%nat
             then term_clauses input ++ [match_all] else term_clauses input),
            facet_clauses input ++ collection_clauses input, @nil Query with
      | [], [], _ :: _ => existsb (matches text_match d) []
      | _, _, _ => true
      end = true).
    { destruct (if (List.length (term_clauses input) =? 0)%nat
             then term_clauses input ++ [match_all] else term_clauses input);
        [destruct (facet_clauses input ++ collection_clauses input)|];
        reflexivity. }
    rewrite Hshould, andb_true_r, andb_assoc. reflexivity.
Qed.

(** *** Failures of the engine *)

(** C8 (as amended).  When the engine fails, the service logs the failure
    and rethrows the engine's own error, unchanged: it is not wrapped and
    gets no type of the service's, so its name and message are those the
    engine gave; and the engine has been called once. *)
Theorem C8_engine_failure_rethrown (client : Engine) (indexPrefix : string)
  (input : CursorSearchInput) (w : World) (searchAfter : option json)
  (e : JsError) :
  decode_input_cursor input = Returned searchAfter ->
  client (engine_calls w) (search_request indexPrefix input searchAfter)
  = Thrown e ->
  cursorSearch client indexPrefix input w
  = (Thrown e,
     {| engine_calls :=
          engine_calls w ++ [search_request indexPrefix input searchAfter];
        console := console w ++ [("[DeepPagination] Search failed:", e)] |}).
Proof. apply cursorSearch_engine_failed. Qed.

Lemma C8_engine_failure_rethrown_witness :
  cursorSearch (failing_engine timeout_error) "gbros" first_page empty_world
  = (Thrown timeout_error,
     {| engine_calls := [search_request "gbros" first_page None];
        console := [("[DeepPagination] Search failed:", timeout_error)] |}).
Proof.
  exact (C8_engine_failure_rethrown (failing_engine timeout_error) "gbros"
           first_page empty_world None timeout_error eq_refl eq_refl).
Defined.

(** C8 as stated fails: when the engine times out, what the caller gets is
    the engine's [TimeoutError], not an error named [SearchUnavailable]. *)
Lemma C8_counterexample :
  ~ exists message w',
      cursorSearch (failing_engine timeout_error) "gbros" first_page empty_world
      = (Thrown {| err_name := "SearchUnavailable"; err_message := message |}, w').
Proof.
  intros (message & w' & H). vm_compute in H. discriminate H.
Qed.

(** *** Cursors *)

Lemma scalar_printable (v : json) : scalar v = true -> printable v.
Proof. destruct v; (discriminate || exact (fun _ => I)). Qed.

Lemma printable_SearchAfterValues (searchAfter : SearchAfterValues) :
  Forall printable (values searchAfter) ->
  printable (json_of_SearchAfterValues searchAfter).
Proof.
  intros Hv. unfold json_of_SearchAfterValues. apply printable_object. split.
  - cbn [map fst]. repeat constructor; cbn [In]; intuition discriminate.
  - constructor; [|constructor; [|constructor]]; cbn [snd];
      apply printable_array; [exact Hv|].
    induction (sortFields searchAfter); constructor; [exact I | assumption].
Qed.

(** What [encodeCursor] makes, [decodeCursor] reads back. *)
Lemma decodeCursor_encodeCursor (searchAfter : SearchAfterValues) :
  Forall printable (values searchAfter) ->
  decodeCursor (encodeCursor searchAfter)
  = Returned (json_of_SearchAfterValues searchAfter).
Proof.
  intros Hv. unfold decodeCursor, encodeCursor.
  unfold Buffer.toString_utf8, Buffer.from_base64, Buffer.toString_base64,
    Buffer.from.
  rewrite base64_decode_encode.
  now rewrite JSON_parse_stringify by now apply printable_SearchAfterValues.
Qed.

Lemma Forall_scalar_printable (vs : list json) :
  Forall (fun v => scalar v = true) vs -> Forall printable vs.
Proof. apply Forall_impl, scalar_printable. Qed.

Lemma stringify_as_written (v : json) :
  stringify (as_written v) = stringify v.
Proof. destruct v as [| | | | | | |[| | |]]; reflexivity. Qed.

Lemma js_scalar_writable (v : json) :
  js_scalar v = true -> writable (as_written v).
Proof.
  destruct v as [| | |l| | | |[| | |]]; cbn [js_scalar as_written writable];
    try discriminate; auto.
  unfold canonical_literal. intros H. now apply andb_prop in H as [H _].
Qed.

Lemma as_written_fixed (v : json) :
  as_written v = v <-> forall n, v <> JSpecial n.
Proof.
  split.
  - intros H n ->. destruct n; discriminate H.
  - intros H. destruct v as [| | | | | | |m]; try reflexivity.
    exfalso. now apply (H m).
Qed.

Lemma map_as_written_fixed (vs : list json) :
  map as_written vs = vs <-> forall n, ~ In (JSpecial n) vs.
Proof.
  induction vs as [|v vs IH]; cbn [map In].
  - split; [intros _ n [] | reflexivity].
  - split.
    + intros [= Hv Hvs] n [-> | Hin].
      * destruct n; discriminate Hv.
      * apply (proj1 IH Hvs n Hin).
    + intros H. f_equal.
      * apply as_written_fixed. intros n ->. apply (H n). now left.
      * apply IH. intros n Hin. apply (H n). now right.
Qed.




Lemma base64_encode_not_empty (c : ascii) (s : string) :
  Base64.encode (String c s) <> ""%string.
Proof.
  destruct c as [a0 a1 a2 a3 a4 a5 a6 a7].
  destruct s as [|[b0 b1 b2 b3 b4 b5 b6 b7] [|[c0 c1 c2 c3 c4 c5 c6 c7] r]];
    discriminate.
Qed.

Lemma encodeCursor_truthy (searchAfter : SearchAfterValues) :
  truthy_string (Some (encodeCursor searchAfter)) = true.
Proof.
  unfold truthy_string, encodeCursor, json_of_SearchAfterValues.
  unfold Buffer.toString_base64, Buffer.from.
  rewrite stringify_object2.
  apply negb_true_iff, String.eqb_neq, base64_encode_not_empty.
Qed.

(** A cursor is accepted whatever the sort of the request it comes with:
    its values go to the engine as the marker, its field names are not
    looked at. *)
Lemma cursor_replayed (indexPrefix : string) (input : CursorSearchInput)
  (searchAfter : SearchAfterValues) :
  Forall (fun v => scalar v = true) (values searchAfter) ->
  cursor input = Some (encodeCursor searchAfter) ->
  decode_input_cursor input
  = Returned (Some (json_of_SearchAfterValues searchAfter))
  /\ Request.search_after
       (search_request indexPrefix input
          (Some (json_of_SearchAfterValues searchAfter)))
     = Some (JArr (values searchAfter))
  /\ Request.sort
       (search_request indexPrefix input
          (Some (json_of_SearchAfterValues searchAfter)))
     = buildSort (sort input).
Proof.
  intros Hs Hc. split; [|split; reflexivity].
  unfold decode_input_cursor. rewrite Hc, encodeCursor_truthy.
  now rewrite (decodeCursor_encodeCursor searchAfter
                 (Forall_scalar_printable _ Hs)).
Qed.

(** C2, the code at the failing input.  The cursor of the first page under
    the sort by name, sent with a request sorted by descending price, is
    decoded without complaint: a page comes back, and the engine has been
    asked to resume the price ordering after the values of the name
    ordering. *)
Theorem C2_cursor_of_other_sort_accepted :
  exists token page1 w1 page2 w2,
    cursorSearch (static_engine catalogue) "gbros" two_by_name empty_world
    = (Returned page1, w1)
    /\ nextCursor page1 = Some token
    /\ decodeCursor token
       = Returned (JObj [("values", JArr [JStr "banana"; JStr "2"; JStr "21"]);
                         ("sortFields",
                          JArr [JStr "productName.keyword"; JStr "productId";
                                JStr "productVariantId"])])
    /\ map sort_field (buildSort (sort (by_price_desc_with token)))
       = ["priceWithTax"; "productId"; "productVariantId"]
    /\ cursorSearch (static_engine catalogue) "gbros" (by_price_desc_with token)
                    empty_world
       = (Returned page2, w2)
    /\ map Request.sort (engine_calls w2)
       = [[{| sort_field := "priceWithTax"; order := desc |};
           {| sort_field := "productId"; order := asc |};
           {| sort_field := "productVariantId"; order := asc |}]]
    /\ map Request.search_after (engine_calls w2)
       = [Some (JArr [JStr "banana"; JStr "2"; JStr "21"])].
Proof.
  do 5 eexists.
  split; [vm_compute; reflexivity|].
  split; [reflexivity|].
  split; [vm_compute; reflexivity|].
  split; [reflexivity|].
  split; [vm_compute; reflexivity|].
  split; reflexivity.
Qed.

(** C10.  A token that holds JSON without a [values] member raises no
    error of its own: the decoded value is kept, the one request that
    reaches the engine carries no [search_after] marker and is the request
    of a first page, the outcome is the page made of the engine's answer
    (or the engine's own error), and the call goes exactly as the call
    without a cursor does.  (For null, a boolean, a number, a string and an
    object the property read is undefined; for an array it is
    [Array.prototype.values], a function, which the request body leaves
    out.) *)
Theorem C10_cursor_without_values (client : Engine) (indexPrefix : string)
  (input : CursorSearchInput) (token : string) (v : json) (w : World) :
  cursor input = Some token ->
  JSON_parse (Buffer.toString_utf8 (Buffer.from_base64 token)) = Some v ->
  lacks_values v ->
  let run := cursorSearch client indexPrefix input w in
  decode_input_cursor input = Returned (Some v)
  /\ ((forall l, v <> JArr l) -> optional_values (Some v) = JsUndefined)
  /\ (exists request,
        engine_calls (snd run) = engine_calls w ++ [request]
        /\ Request.search_after request = None
        /\ request = search_request indexPrefix (set_cursor input None) None
        /\ (forall response,
              client (engine_calls w) request = Returned response ->
              fst run
              = Returned (page_of_response (effective_take input)
                                           (buildSort (sort input)) response))
        /\ (forall e,
              fst run = Thrown e ->
              client (engine_calls w) request = Thrown e))
  /\ run = cursorSearch client indexPrefix (set_cursor input None) w.
Proof.
  intros Hc Hp Hv run. unfold run.
  assert (Hne : String.eqb token "" = false).
  { destruct token; [discriminate Hp | reflexivity]. }
  assert (Hd : decode_input_cursor input = Returned (Some v)).
  { unfold decode_input_cursor, decodeCursor, truthy_string.
    now rewrite Hc, Hne, Hp. }
  assert (Hsa : body_property (optional_values (Some v)) = None).
  { destruct v; try reflexivity. cbn in Hv. cbn. now rewrite Hv. }
  assert (Hreq : search_request indexPrefix input (Some v)
                 = search_request indexPrefix (set_cursor input None) None).
  { unfold search_request. now rewrite Hsa. }
  split; [exact Hd|]. split; [|split].
  - intros Harr. destruct v as [| | | | |l|members|]; try reflexivity.
    + exfalso. now apply (Harr l).
    + cbn in Hv. cbn. now rewrite Hv.
  - exists (search_request indexPrefix input (Some v)).
    destruct (client (engine_calls w) (search_request indexPrefix input (Some v)))
      as [response|e] eqn:Hcl.
    + rewrite (cursorSearch_answered _ _ _ _ _ _ Hd Hcl). cbn [fst snd].
      split; [reflexivity | split; [exact Hsa | split; [exact Hreq|]]].
      split; [now intros r [= <-] | discriminate].
    + rewrite (cursorSearch_engine_failed _ _ _ _ _ _ Hd Hcl). cbn [fst snd].
      split; [reflexivity | split; [exact Hsa | split; [exact Hreq|]]].
      split; [discriminate | now intros e' [= <-]].
  - unfold cursorSearch, bind at 1, lift. rewrite Hd, Hreq. reflexivity.
Qed.

Lemma C10_cursor_without_values_witness :
  let input := set_cursor first_page (Some "NDI="%string) in
  let run := cursorSearch (static_engine catalogue) "gbros" input empty_world in
  cursor input = Some "NDI="%string
  /\ JSON_parse (Buffer.toString_utf8 (Buffer.from_base64 "NDI=")) = Some (JNum 42)
  /\ lacks_values (JNum 42)
  /\ exists request,
       engine_calls (snd run) = engine_calls empty_world ++ [request]
       /\ Request.search_after request = None
       /\ fst run
          = Returned (page_of_response 100 tiebreakers
                        {| hits := catalogue; total := TotalObject 3 |}).
Proof.
  intros input run.
  assert (H1 : cursor input = Some "NDI="%string) by reflexivity.
  assert (H2 : JSON_parse (Buffer.toString_utf8 (Buffer.from_base64 "NDI="))
               = Some (JNum 42)) by reflexivity.
  destruct (C10_cursor_without_values (static_engine catalogue) "gbros" input
                                      "NDI=" (JNum 42) empty_world H1 H2 I)
    as (_ & _ & (request & Hcalls & Hnone & Hreq & Hpage & _) & _).
  split; [exact H1 | split; [exact H2 | split; [exact I|]]].
  exists request. split; [exact Hcalls | split; [exact Hnone|]].
  apply Hpage. rewrite Hreq. reflexivity.
Defined.

(** ** Examples *)

(** Five documents priced 1, 2, 2, 3, 3, fetched two at a time: two full
    pages with a cursor, then the last document without one. *)
Lemma scenario_three_pages :
  exists c1 c2,
    fetch None = (["a"; "b"], true, Some c1)
    /\ fetch (Some c1) = (["c"; "d"], true, Some c2)
    /\ fetch (Some c2) = (["e"], false, None).
Proof.
  do 2 eexists. split; [vm_compute; reflexivity|].
  split; [vm_compute; reflexivity|].
  vm_compute; reflexivity.
Qed.

(** A token that holds an array, such as the cursor shown in the README
    (the base64 of [[1709587600000,"product-123"]]): the property read finds
    a function, and the call is the call of a first page. *)
Lemma array_token_is_first_page :
  let token := "WzE3MDk1ODc2MDAwMDAsInByb2R1Y3QtMTIzIl0="%string in
  decodeCursor token = Returned (JArr [JNum 1709587600000; JStr "product-123"])
  /\ optional_values (Some (JArr [JNum 1709587600000; JStr "product-123"]))
     = JsBuiltin "Array.prototype.values"
  /\ cursorSearch (static_engine catalogue) "gbros"
                  (set_cursor first_page (Some token)) empty_world
     = cursorSearch (static_engine catalogue) "gbros" first_page empty_world.
Proof. split; [|split]; vm_compute; reflexivity. Qed.

(** A token that holds no JSON is rejected before the engine is called. *)
Lemma malformed_token_rejected :
  cursorSearch (static_engine catalogue) "gbros"
               (set_cursor first_page (Some "not-a-cursor"%string)) empty_world
  = (Thrown (new_Error "Invalid cursor format"), empty_world).
Proof. vm_compute. reflexivity. Qed.

(** * Further properties *)

(** ** A cursor of the service, sent back to it *)

Lemma printable_cursor_decodes (input : CursorSearchInput)
  (searchAfter : SearchAfterValues) :
  Forall printable (values searchAfter) ->
  cursor input = Some (encodeCursor searchAfter) ->
  decode_input_cursor input
  = Returned (Some (json_of_SearchAfterValues searchAfter)).
Proof.
  intros Hs Hc. unfold decode_input_cursor.
  rewrite Hc, encodeCursor_truthy.
  now rewrite (decodeCursor_encodeCursor searchAfter Hs).
Qed.

Lemma In_firstn {A} (x : A) (n : nat) (l : list A) :
  In x (firstn n l) -> In x l.
Proof.
  intros H. rewrite <- (firstn_skipn n l). apply in_or_app. now left.
Qed.

(** The cursor of a page is made from the last item kept. *)
Lemma page_cursor_origin (take : Z) (srt : list SortClause)
  (response : SearchResponse) (token : string) :
  nextCursor (page_of_response take srt response) = Some token ->
  exists lastHit rest,
    retained take (hits response) = rest ++ [lastHit]
    /\ token = encodeCursor {| values := or_empty (Hit.sort lastHit);
                               sortFields := map sort_field srt |}.
Proof.
  rewrite page_next_cursor. unfold next_cursor.
  destruct (hasMore (page_of_response take srt response)
            && (0 <? List.length (retained take (hits response)))%nat);
    [|discriminate].
  destruct (retained take (hits response)) as [|h l] eqn:E using rev_ind;
    [discriminate|].
  clear IHl. rewrite length_app. cbn [List.length].
  replace (List.length l + 1 - 1)%nat with (List.length l) by lia.
  rewrite nth_error_app2, Nat.sub_diag by lia. cbn [nth_error].
  intros [= <-]. now exists h, l.
Qed.

(** X1.  The cursor of a page the service has returned is accepted by the
    service whatever request it comes with, in whatever state: the call
    raises no error of its own, the one request it sends the engine resumes
    after the sort values of the last item of that page, with the query and
    the order of the new request, and the outcome is the page made of the
    engine's answer; and when the cursor comes with the request that
    produced it, the request sent differs from the first one sent in the
    marker only. *)
Theorem next_cursor_resumes (client : Engine) (indexPrefix : string)
  (input : CursorSearchInput) (w w' : World)
  (page : CursorSearchResult SearchResult.t) (token : string) :
  cursorSearch client indexPrefix input w = (Returned page, w') ->
  nextCursor page = Some token ->
  (forall request response,
     client (engine_calls w) request = Returned response ->
     Forall (fun h => Forall printable (or_empty (Hit.sort h))) (hits response)) ->
  exists lastHit kept dropped first response,
    engine_calls w' = engine_calls w ++ [first]
    /\ client (engine_calls w) first = Returned response
    /\ hits response = kept ++ [lastHit] ++ dropped
    /\ items page = map map_hit (kept ++ [lastHit])
    /\ forall other w2,
         cursor other = Some token ->
         let again := cursorSearch client indexPrefix other w2 in
         exists request,
           engine_calls (snd again) = engine_calls w2 ++ [request]
           /\ Request.search_after request
              = Some (JArr (or_empty (Hit.sort lastHit)))
           /\ Request.query request = buildQuery other
           /\ Request.sort request = buildSort (sort other)
           /\ Request.size request = effective_take other + 1
           /\ (forall answer,
                 client (engine_calls w2) request = Returned answer ->
                 fst again
                 = Returned (page_of_response (effective_take other)
                                              (buildSort (sort other)) answer))
           /\ (forall e,
                 fst again = Thrown e ->
                 client (engine_calls w2) request = Thrown e)
           /\ (other = set_cursor input (Some token) ->
               Request.index request = Request.index first
               /\ Request.query request = Request.query first
               /\ Request.sort request = Request.sort first
               /\ Request.size request = Request.size first
               /\ Request.track_total_hits request
                  = Request.track_total_hits first).
Proof.
  intros Hrun Htok Hprint.
  destruct (cursorSearch_page_inv _ _ _ _ _ _ Hrun)
    as (sa & response & Hd & Hc & ->).
  rewrite (cursorSearch_answered _ _ _ _ _ _ Hd Hc) in Hrun.
  injection Hrun as <-.
  destruct (page_cursor_origin _ _ _ _ Htok) as (lastHit & kept & Hk & Etok).
  assert (Hhits : exists dropped,
            hits response = kept ++ [lastHit] ++ dropped).
  { unfold retained, slice0 in Hk.
    destruct (Z.of_nat (List.length (hits response)) >? effective_take input).
    - eexists. rewrite List.app_assoc, <- Hk. symmetry. apply firstn_skipn.
    - exists []. now rewrite List.app_nil_r. }
  destruct Hhits as [dropped Hhits].
  exists lastHit, kept, dropped, (search_request indexPrefix input sa), response.
  split; [reflexivity|]. split; [exact Hc|]. split; [exact Hhits|].
  split; [rewrite page_items, Hk; reflexivity|].
  assert (Hp : Forall printable (or_empty (Hit.sort lastHit))).
  { specialize (Hprint _ response Hc). rewrite Forall_forall in Hprint.
    apply Hprint. rewrite Hhits. apply in_or_app. right. now left. }
  intros other w2 Hother again. unfold again.
  pose proof Hother as Hcur. rewrite Etok in Hcur.
  pose proof (printable_cursor_decodes other
                {| values := or_empty (Hit.sort lastHit);
                   sortFields := map sort_field (buildSort (sort input)) |}
                Hp Hcur) as Hd2.
  set (decoded := json_of_SearchAfterValues
                    {| values := or_empty (Hit.sort lastHit);
                       sortFields := map sort_field (buildSort (sort input)) |})
    in Hd2.
  exists (search_request indexPrefix other (Some decoded)).
  assert (Hsame : other = set_cursor input (Some token) ->
            Request.index (search_request indexPrefix other (Some decoded))
            = Request.index (search_request indexPrefix input sa)
            /\ Request.query (search_request indexPrefix other (Some decoded))
               = Request.query (search_request indexPrefix input sa)
            /\ Request.sort (search_request indexPrefix other (Some decoded))
               = Request.sort (search_request indexPrefix input sa)
            /\ Request.size (search_request indexPrefix other (Some decoded))
               = Request.size (search_request indexPrefix input sa)
            /\ Request.track_total_hits
                 (search_request indexPrefix other (Some decoded))
               = Request.track_total_hits (search_request indexPrefix input sa)).
  { intros ->. cbn. auto. }
  destruct (client (engine_calls w2)
                   (search_request indexPrefix other (Some decoded)))
    as [r|e] eqn:Hcl.
  - rewrite (cursorSearch_answered _ _ _ _ _ _ Hd2 Hcl). cbn [fst snd].
    split; [reflexivity|]. do 4 (split; [reflexivity|]).
    split; [now intros r' [= <-]|]. split; [discriminate | exact Hsame].
  - rewrite (cursorSearch_engine_failed _ _ _ _ _ _ Hd2 Hcl). cbn [fst snd].
    split; [reflexivity|]. do 4 (split; [reflexivity|]).
    split; [discriminate|]. split; [now intros e' [= <-] | exact Hsame].
Qed.

Lemma after_marker_incl (marker : list json) (docs : list Hit.t) :
  incl (after_marker marker docs) docs.
Proof.
  induction docs as [|h docs IH]; [intros x []|].
  cbn [after_marker].
  destruct (tuple_eqb (or_empty (Hit.sort h)) marker).
  - intros x Hx. now right.
  - intros x Hx. right. now apply IH.
Qed.

Lemma static_engine_hits (docs : list Hit.t) (history : list Request.t)
  (request : Request.t) (response : SearchResponse) :
  static_engine docs history request = Returned response ->
  incl (hits response) docs.
Proof.
  unfold static_engine.
  destruct (Request.size request <? 0); [discriminate|].
  intros [= <-]. cbn [hits]. intros x Hx. apply In_firstn in Hx.
  destruct (Request.search_after request) as [[| | | | |marker| |]|];
    try exact Hx.
  now apply after_marker_incl in Hx.
Qed.

Lemma catalogue_printable :
  Forall (fun h => Forall printable (or_empty (Hit.sort h))) catalogue.
Proof. repeat constructor. Qed.

Lemma next_cursor_resumes_witness :
  exists page w' token lastHit,
    cursorSearch (static_engine catalogue) "gbros" two_by_name empty_world
    = (Returned page, w')
    /\ nextCursor page = Some token
    /\ In lastHit catalogue
    /\ exists request,
         engine_calls
           (snd (cursorSearch (static_engine catalogue) "gbros"
                              (set_cursor two_by_name (Some token)) w'))
         = engine_calls w' ++ [request]
         /\ Request.search_after request
            = Some (JArr (or_empty (Hit.sort lastHit)))
         /\ Request.size request = 3.
Proof.
  assert (Hrun : cursorSearch (static_engine catalogue) "gbros" two_by_name
                              empty_world
                 = (Returned (page_of_response 2 (buildSort (sort two_by_name))
                      {| hits := firstn 3 catalogue; total := TotalObject 3 |}),
                    {| engine_calls := [search_request "gbros" two_by_name None];
                       console := [] |})) by reflexivity.
  assert (Htok : nextCursor (page_of_response 2 (buildSort (sort two_by_name))
                   {| hits := firstn 3 catalogue; total := TotalObject 3 |})
                 = Some (encodeCursor
                           {| values := [JStr "banana"; JStr "2"; JStr "21"];
                              sortFields := map sort_field
                                              (buildSort (sort two_by_name)) |}))
    by reflexivity.
  destruct (next_cursor_resumes _ _ _ _ _ _ _ Hrun Htok)
    as (lastHit & kept & dropped & first & response
        & _ & Hfirst & Hhits & _ & Hagain).
  - intros request response Hr. apply static_engine_hits in Hr.
    pose proof catalogue_printable as Hc. rewrite Forall_forall in Hc |- *.
    intros h Hh. apply Hc, Hr, Hh.
  - destruct (Hagain
                (set_cursor two_by_name
                   (Some (encodeCursor
                            {| values := [JStr "banana"; JStr "2"; JStr "21"];
                               sortFields :=
                                 map sort_field
                                     (buildSort (sort two_by_name)) |})))
                {| engine_calls := [search_request "gbros" two_by_name None];
                   console := [] |}
                eq_refl)
      as (request & Hcalls & Hafter & _ & _ & Hsize & _).
    do 3 eexists. exists lastHit.
    split; [exact Hrun | split; [exact Htok|]].
    split.
    + apply static_engine_hits in Hfirst. apply Hfirst. rewrite Hhits.
      apply in_or_app. right. now left.
    + exists request. split; [exact Hcalls | split; [exact Hafter|]].
      exact Hsize.
Defined.

(** ** Following the cursors to the end *)

Section Scroll.

Variable client : Engine.
Variable indexPrefix : string.
Variable docs : list Hit.t.
Variable input : CursorSearchInput.

Hypothesis Hengine :
  engine_over (indexPrefix ++ "variants*") (buildQuery input)
              (buildSort (sort input)) docs client.
Hypothesis Htake : forall t, take input = Some t -> 0 <= t.
Hypothesis Hprintable :
  Forall (fun h => Forall printable (or_empty (Hit.sort h))) docs.

Local Abbreviation page_size := (Z.to_nat (effective_take input)).
Local Abbreviation srt := (buildSort (sort input)).

Lemma page_size_positive : (1 <= page_size)%nat.
Proof.
  pose proof (effective_take_positive input Htake). lia.
Qed.

Lemma page_size_take : Z.of_nat page_size = effective_take input.
Proof.
  pose proof (effective_take_positive input Htake). lia.
Qed.

(** What the engine answers at position [k]. *)
Lemma engine_answer_at (k : nat) (c : option string) (w : World) :
  cursor_at docs srt k c ->
  exists searchAfter t,
    decode_input_cursor (set_cursor input c) = Returned searchAfter
    /\ client (engine_calls w)
              (search_request indexPrefix (set_cursor input c) searchAfter)
       = Returned {| hits := firstn (S page_size) (skipn k docs); total := t |}.
Proof.
  intros Hat.
  pose proof (effective_take_positive input Htake) as Hpos.
  assert (Hsize : forall sa,
            Z.to_nat (Request.size
                        (search_request indexPrefix (set_cursor input c) sa))
            = S page_size).
  { intros sa. cbn [search_request Request.size].
    change (effective_take (set_cursor input c)) with (effective_take input).
    lia. }
  assert (Hnonneg : forall sa,
            0 <= Request.size
                   (search_request indexPrefix (set_cursor input c) sa)).
  { intros sa. cbn [search_request Request.size].
    change (effective_take (set_cursor input c)) with (effective_take input).
    lia. }
  destruct k as [|k]; cbn [cursor_at] in Hat.
  - exists None.
    assert (Hd : decode_input_cursor (set_cursor input c) = Returned None).
    { unfold decode_input_cursor. cbn [cursor set_cursor].
      destruct c as [s|]; [|reflexivity]. now rewrite Hat. }
    destruct (Hengine (engine_calls w)
                (search_request indexPrefix (set_cursor input c) None)
                eq_refl eq_refl eq_refl (Hnonneg None)) as [Hfirst _].
    destruct (Hfirst eq_refl) as [t Ht].
    exists t. split; [exact Hd|]. rewrite Ht, Hsize. reflexivity.
  - destruct Hat as (h & Hh & ->).
    set (sa := {| values := or_empty (Hit.sort h);
                  sortFields := map sort_field srt |}).
    exists (Some (json_of_SearchAfterValues sa)).
    assert (Hp : Forall printable (values sa)).
    { rewrite Forall_forall in Hprintable. apply Hprintable.
      eapply nth_error_In, Hh. }
    assert (Hd : decode_input_cursor (set_cursor input (Some (encodeCursor sa)))
                 = Returned (Some (json_of_SearchAfterValues sa)))
      by now apply printable_cursor_decodes.
    destruct (Hengine (engine_calls w)
                (search_request indexPrefix
                   (set_cursor input (Some (encodeCursor sa)))
                   (Some (json_of_SearchAfterValues sa)))
                eq_refl eq_refl eq_refl (Hnonneg _)) as [_ Hafter].
    destruct (Hafter k h Hh eq_refl) as [t Ht].
    exists t. split; [exact Hd|]. rewrite Ht, Hsize. reflexivity.
Qed.

(** The page at position [k]. *)
Lemma page_at (k : nat) (c : option string) (w : World) :
  cursor_at docs srt k c ->
  exists page w',
    cursorSearch client indexPrefix (set_cursor input c) w = (Returned page, w')
    /\ items page = map map_hit (firstn page_size (skipn k docs))
    /\ (hasMore page = true <-> (page_size < List.length (skipn k docs))%nat)
    /\ (hasMore page = true ->
        cursor_at docs srt (k + page_size) (nextCursor page)).
Proof.
  intros Hat.
  destruct (engine_answer_at k c w Hat) as (sa & t & Hd & Hc).
  pose proof page_size_positive as Hpos. pose proof page_size_take as Hz.
  set (rem := skipn k docs) in *.
  set (response := {| hits := firstn (S page_size) rem; total := t |}) in *.
  eexists. eexists. split; [exact (cursorSearch_answered _ _ _ _ _ _ Hd Hc)|].
  change (effective_take (set_cursor input c)) with (effective_take input).
  change (sort (set_cursor input c)) with (sort input).
  pose proof (page_has_more (effective_take input) srt response) as Hmore.
  cbn [hits response] in Hmore. rewrite length_firstn in Hmore.
  assert (Hiff : hasMore (page_of_response (effective_take input) srt response)
                 = true <-> (page_size < List.length rem)%nat)
    by (rewrite Hmore; lia).
  assert (Hkept : retained (effective_take input) (hits response)
                  = firstn page_size rem).
  { unfold retained. cbn [hits response]. rewrite length_firstn.
    destruct (Z.gtb_spec (Z.of_nat (Nat.min (S page_size) (List.length rem)))
                         (effective_take input)).
    - rewrite slice0_firstn by lia. rewrite <- Hz, Nat2Z.id.
      rewrite firstn_firstn. f_equal. lia.
    - rewrite !firstn_all2 by lia. reflexivity. }
  split; [now rewrite page_items, Hkept|]. split; [exact Hiff|].
  intros Hm. rewrite page_next_cursor, Hm, Hkept.
  apply Hiff in Hm.
  replace (k + page_size)%nat with (S (k + (page_size - 1))) by lia.
  cbn [cursor_at].
  destruct (nth_error docs (k + (page_size - 1))) as [h|] eqn:E.
  - exists h. split; [reflexivity|].
    apply next_cursor_last.
    rewrite nth_error_firstn_last by lia.
    unfold rem. rewrite nth_error_skipn. exact E.
  - exfalso. apply nth_error_None in E. unfold rem in Hm.
    rewrite length_skipn in Hm. lia.
Qed.

Lemma scroll_from (fuel : nat) :
  forall (k : nat) (c : option string) (w : World),
    cursor_at docs srt k c ->
    (List.length docs - k < fuel)%nat ->
    fst (scroll client indexPrefix fuel (set_cursor input c) w)
    = Some (Returned (map map_hit (skipn k docs))).
Proof.
  induction fuel as [|fuel IH]; intros k c w Hat Hfuel; [lia|].
  destruct (page_at k c w Hat) as (page & w' & Hrun & Hitems & Hmore & Hnext).
  pose proof page_size_positive as Hpos.
  cbn [scroll]. rewrite Hrun.
  destruct (hasMore page) eqn:Hm.
  - assert (Hlt : (page_size < List.length (skipn k docs))%nat)
      by now apply Hmore.
    rewrite length_skipn in Hlt.
    change (set_cursor (set_cursor input c) (nextCursor page))
      with (set_cursor input (nextCursor page)).
    specialize (IH (k + page_size)%nat (nextCursor page) w' (Hnext eq_refl)).
    destruct (scroll client indexPrefix fuel
                     (set_cursor input (nextCursor page)) w') as [r w''].
    cbn [fst] in IH |- *. rewrite IH by lia. cbn [fst].
    rewrite Hitems, <- map_app. do 3 f_equal.
    etransitivity; [|apply (firstn_skipn page_size (skipn k docs))].
    f_equal. rewrite skipn_skipn. f_equal. lia.
  - cbn [fst]. rewrite Hitems. do 3 f_equal.
    apply firstn_all2.
    destruct (Nat.le_gt_cases (List.length (skipn k docs)) page_size) as [H|H];
      [exact H|].
    apply Hmore in H. congruence.
Qed.

End Scroll.


(** The engine that selects and sorts keeps to [search_after] for the fruit
    by descending price; it gives other answers to other queries. *)
Lemma sorting_engine_over_fruit :
  engine_over "gbrosvariants*" (buildQuery fruit_by_price)
              (buildSort (sort fruit_by_price)) fruit_dearest_first
              (sorting_engine "gbrosvariants*" name_match shop).
Proof.
  assert (Hranked : ranked name_match shop (buildQuery fruit_by_price)
                           (buildSort (sort fruit_by_price))
                    = fruit_dearest_first) by (vm_compute; reflexivity).
  intros history [index query srt size search_after track] Hi Hq Hs Hsize.
  cbn [Request.index Request.query Request.sort Request.size
       Request.search_after] in *.
  subst index query srt.
  assert (Hneg : (size <? 0) = false) by lia.
  unfold sorting_engine.
  cbn [Request.index Request.query Request.sort Request.size
       Request.search_after].
  rewrite String.eqb_refl, Hneg, Hranked. cbn [negb].
  split.
  - intros ->. eexists. reflexivity.
  - intros k h Hh ->.
    destruct k as [|[|[|k]]]; cbn in Hh;
      try (injection Hh as <-; eexists; reflexivity).
    destruct k; discriminate Hh.
Qed.

Lemma fruit_printable :
  Forall (fun h => Forall printable (or_empty (Hit.sort h))) fruit_dearest_first.
Proof. repeat constructor. Qed.


(** ** What a call does with its cursor, the engine and the console *)

Lemma decode_input_cursor_thrown (input : CursorSearchInput) (e : JsError) :
  decode_input_cursor input = Thrown e <->
  malformed_cursor input /\ e = new_Error "Invalid cursor format".
Proof.
  unfold decode_input_cursor, decodeCursor, malformed_cursor, truthy_string.
  destruct (cursor input) as [c|].
  - destruct (String.eqb_spec c "") as [->|Hne]; cbn [negb].
    + split; [discriminate|]. intros [(c' & [= <-] & Hc & _) _]. congruence.
    + destruct (JSON_parse (Buffer.toString_utf8 (Buffer.from_base64 c)))
        as [v|] eqn:Hp.
      * split; [discriminate|].
        intros [(c' & [= <-] & _ & Hn) _]. congruence.
      * split.
        -- intros [= <-]. split; [|reflexivity]. now exists c.
        -- now intros [_ ->].
  - split; [discriminate|]. intros [(c' & Hc & _) _]. discriminate.
Qed.

(** X3.  A cursor that is present, not empty and holds no JSON makes the
    call throw [Error('Invalid cursor format')] before the engine is called
    and without a line on the console, and nothing else does; every other
    call, an empty cursor string included, sends the engine exactly one
    request; and the console gets a line exactly when the engine fails, with
    the error that is thrown. *)
Theorem cursor_error_behaviour (client : Engine) (indexPrefix : string)
  (input : CursorSearchInput) (w : World) :
  let run := cursorSearch client indexPrefix input w in
  (malformed_cursor input
   <-> run = (Thrown (new_Error "Invalid cursor format"), w))
  /\ (~ malformed_cursor input ->
      exists request, engine_calls (snd run) = engine_calls w ++ [request])
  /\ (console (snd run) = console w
      /\ (malformed_cursor input \/ exists page, fst run = Returned page)
      \/ exists e,
           ~ malformed_cursor input
           /\ fst run = Thrown e
           /\ console (snd run)
              = console w ++ [("[DeepPagination] Search failed:", e)]).
Proof.
  intros run. unfold run.
  destruct (decode_input_cursor input) as [sa|e] eqn:Hd.
  - assert (Hok : ~ malformed_cursor input).
    { intros Hm.
      assert (H : decode_input_cursor input
                  = Thrown (new_Error "Invalid cursor format"))
        by (apply decode_input_cursor_thrown; auto).
      congruence. }
    destruct (client (engine_calls w) (search_request indexPrefix input sa))
      as [response|e] eqn:Hc.
    + rewrite (cursorSearch_answered _ _ _ _ _ _ Hd Hc). cbn [fst snd].
      split; [split; [contradiction | discriminate]|].
      split; [intros _; eexists; reflexivity|].
      left. split; [reflexivity | right; eexists; reflexivity].
    + rewrite (cursorSearch_engine_failed _ _ _ _ _ _ Hd Hc). cbn [fst snd].
      split.
      * split; [contradiction|]. intros [= _ Hw].
        apply (f_equal engine_calls) in Hw. cbn in Hw.
        apply (f_equal (@List.length _)) in Hw.
        rewrite length_app in Hw. cbn in Hw. lia.
      * split; [intros _; eexists; reflexivity|].
        right. exists e. split; [exact Hok | split; reflexivity].
  - apply decode_input_cursor_thrown in Hd as Hm. destruct Hm as [Hm ->].
    rewrite (cursorSearch_bad_cursor _ _ _ _ _ Hd). cbn [fst snd].
    split; [split; auto|]. split; [contradiction|].
    left. split; [reflexivity | left; exact Hm].
Qed.

(** ** Fields that are declared and not read *)

(** X4.  [collectionSlug], [groupByProduct] and [sort.createdAt] have no
    effect: whatever they hold, the call sends the same request and gives
    the same outcome. *)
Theorem unread_fields_ignored (client : Engine) (indexPrefix : string)
  (input : CursorSearchInput) (slug : option string) (group : option bool)
  (created : option SortOrder) (w : World) :
  (forall searchAfter,
     search_request indexPrefix (set_unread input slug group created) searchAfter
     = search_request indexPrefix input searchAfter)
  /\ cursorSearch client indexPrefix (set_unread input slug group created) w
     = cursorSearch client indexPrefix input w.
Proof.
  assert (Hsort : buildSort (sort (set_unread input slug group created))
                  = buildSort (sort input)).
  { cbn [set_unread sort]. destruct (sort input); reflexivity. }
  assert (Hreq : forall sa,
            search_request indexPrefix (set_unread input slug group created) sa
            = search_request indexPrefix input sa).
  { intros sa. unfold search_request. rewrite Hsort. reflexivity. }
  split; [exact Hreq|].
  unfold cursorSearch. rewrite Hsort.
  change (decode_input_cursor (set_unread input slug group created))
    with (decode_input_cursor input).
  change (effective_take (set_unread input slug group created))
    with (effective_take input).
  unfold bind, lift. destruct (decode_input_cursor input); [|reflexivity].
  now rewrite Hreq.
Qed.

(** ** Tokens *)

Lemma map_JStr_injective (a b : list string) : map JStr a = map JStr b -> a = b.
Proof.
  revert b. induction a as [|x a IH]; intros [|y b] H; try discriminate;
    [reflexivity|].
  cbn [map] in H. injection H as -> H. f_equal. now apply IH.
Qed.



Lemma char_of_sextet_token_char (x0 x1 x2 x3 x4 x5 : bool) :
  token_char (Base64.char_of_sextet (Ascii x0 x1 x2 x3 x4 x5 false false))
  = true.
Proof. destruct x0, x1, x2, x3, x4, x5; reflexivity. Qed.

Lemma base64_encode_shape (bytes : string) :
  all_chars token_char (Base64.encode bytes) = true
  /\ Nat.modulo (String.length (Base64.encode bytes)) 4 = 0%nat.
Proof.
  induction bytes as [|a|a b|a b c rest [IH1 IH2]] using string_ind3.
  - split; reflexivity.
  - destruct a as [a0 a1 a2 a3 a4 a5 a6 a7]. cbn [Base64.encode all_chars].
    rewrite !char_of_sextet_token_char. split; reflexivity.
  - destruct a as [a0 a1 a2 a3 a4 a5 a6 a7], b as [b0 b1 b2 b3 b4 b5 b6 b7].
    cbn [Base64.encode all_chars].
    rewrite !char_of_sextet_token_char. split; reflexivity.
  - destruct a as [a0 a1 a2 a3 a4 a5 a6 a7], b as [b0 b1 b2 b3 b4 b5 b6 b7],
             c as [c0 c1 c2 c3 c4 c5 c6 c7].
    cbn [Base64.encode all_chars String.length].
    rewrite !char_of_sextet_token_char, IH1. split; [reflexivity|].
    change (S (S (S (S (String.length (Base64.encode rest))))))
      with (4 + String.length (Base64.encode rest))%nat.
    rewrite <- Nat.Div0.add_mod_idemp_l. exact IH2.
Qed.

(** X6.  Every [nextCursor] the service returns is a non-empty string of
    characters of the standard base64 alphabet and [=], of a length that is
    a multiple of 4; so it is never taken for an absent cursor. *)
Theorem next_cursor_token_shape (client : Engine) (indexPrefix : string)
  (input : CursorSearchInput) (w w' : World)
  (page : CursorSearchResult SearchResult.t) (token : string) :
  cursorSearch client indexPrefix input w = (Returned page, w') ->
  nextCursor page = Some token ->
  truthy_string (Some token) = true
  /\ all_chars token_char token = true
  /\ Nat.modulo (String.length token) 4 = 0%nat.
Proof.
  intros Hrun Htok.
  destruct (cursorSearch_page_inv _ _ _ _ _ _ Hrun)
    as (sa & response & _ & _ & ->).
  destruct (page_cursor_origin _ _ _ _ Htok) as (lastHit & kept & _ & ->).
  split; [apply encodeCursor_truthy|].
  apply base64_encode_shape.
Qed.

Lemma next_cursor_token_shape_witness :
  exists page w' token,
    cursorSearch (static_engine catalogue) "gbros" two_by_name empty_world
    = (Returned page, w')
    /\ nextCursor page = Some token
    /\ truthy_string (Some token) = true
    /\ all_chars token_char token = true
    /\ Nat.modulo (String.length token) 4 = 0%nat.
Proof.
  do 3 eexists.
  assert (Hrun : cursorSearch (static_engine catalogue) "gbros" two_by_name
                              empty_world
                 = (Returned (page_of_response 2 (buildSort (sort two_by_name))
                      {| hits := firstn 3 catalogue; total := TotalObject 3 |}),
                    {| engine_calls := [search_request "gbros" two_by_name None];
                       console := [] |})) by reflexivity.
  assert (Htok : nextCursor (page_of_response 2 (buildSort (sort two_by_name))
                   {| hits := firstn 3 catalogue; total := TotalObject 3 |})
                 = Some (encodeCursor
                           {| values := [JStr "banana"; JStr "2"; JStr "21"];
                              sortFields := map sort_field
                                              (buildSort (sort two_by_name)) |}))
    by reflexivity.
  split; [exact Hrun | split; [exact Htok|]].
  exact (next_cursor_token_shape _ _ _ _ _ _ _ Hrun Htok).
Defined.

(** ** The projection of a hit *)

(** X7.  In a projected hit, each bound of the price is the product-level
    price, or the variant's [priceWithTax] when that is missing or 0; the
    price is a [SinglePrice] exactly when the two bounds agree and a
    [PriceRange] of the two otherwise, so that a range never has equal
    ends; and [productAsset] is null exactly when [productAssetId] is
    missing or empty, and otherwise carries that id and [productPreview]. *)
Theorem map_hit_price_and_asset (hit : Hit.t) :
  let source := Hit._source hit in
  let variantPrice := Source.priceWithTax source in
  let bound (productPrice : option Z) :=
    match productPrice with
    | Some 0 | None => variantPrice
    | Some p => p
    end in
  let lo := bound (Source.productPriceWithTaxMin source) in
  let hi := bound (Source.productPriceWithTaxMax source) in
  let price := SearchResult.priceWithTax (map_hit hit) in
  let asset := SearchResult.productAsset (map_hit hit) in
  (lo = hi /\ price = SinglePrice lo \/ lo <> hi /\ price = PriceRange lo hi)
  /\ (forall lo' hi', price = PriceRange lo' hi' -> lo' <> hi')
  /\ (asset = None
      <-> Source.productAssetId source = None
          \/ Source.productAssetId source = Some EmptyString)
  /\ (forall a,
        asset = Some a ->
        Source.productAssetId source = Some (id a)
        /\ id a <> EmptyString
        /\ preview a = Source.productPreview source).
Proof.
  intros source variantPrice bound lo hi price asset.
  assert (Hlo : or_number (Source.productPriceWithTaxMin source) variantPrice
                = lo).
  { unfold lo, bound, or_number.
    destruct (Source.productPriceWithTaxMin source) as [[|p|p]|]; reflexivity. }
  assert (Hhi : or_number (Source.productPriceWithTaxMax source) variantPrice
                = hi).
  { unfold hi, bound, or_number.
    destruct (Source.productPriceWithTaxMax source) as [[|p|p]|]; reflexivity. }
  assert (Hprice : price = if lo =? hi then SinglePrice lo else PriceRange lo hi).
  { unfold price. cbn [map_hit SearchResult.priceWithTax].
    fold source. fold variantPrice. now rewrite Hlo, Hhi. }
  assert (Hasset : asset
                   = match Source.productAssetId source with
                     | Some EmptyString | None => None
                     | Some a =>
                         Some {| id := a;
                                 preview := Source.productPreview source |}
                     end).
  { unfold asset. cbn [map_hit SearchResult.productAsset]. fold source.
    destruct (Source.productAssetId source) as [[|c a]|]; reflexivity. }
  split; [|split; [|split]].
  - rewrite Hprice. destruct (Z.eqb_spec lo hi); [left | right]; auto.
  - intros lo' hi'. rewrite Hprice.
    destruct (Z.eqb_spec lo hi); [discriminate|].
    intros [= <- <-]. assumption.
  - rewrite Hasset.
    destruct (Source.productAssetId source) as [[|c a]|].
    + split; auto.
    + split; [discriminate | intros [H | H]; discriminate H].
    + split; auto.
  - intros a. rewrite Hasset.
    destruct (Source.productAssetId source) as [[|c i]|]; try discriminate.
    intros [= <-]. cbn. split; [reflexivity | split; [discriminate | reflexivity]].
Qed.

(** ** The composed sort *)

(** X8.  The composed sort never names a field twice, has between 2 and 4
    entries, and its last entry is [productVariantId] ascending, the
    unique key that makes the order total. *)
Theorem buildSort_invariants (sortInput : option SortInput) :
  NoDup (map sort_field (buildSort sortInput))
  /\ (2 <= List.length (buildSort sortInput) <= 4)%nat
  /\ last (buildSort sortInput) {| sort_field := EmptyString; order := desc |}
     = {| sort_field := "productVariantId"; order := asc |}.
Proof.
  assert (Hnodup : forall fields : list string,
            forallb (fun f => negb (existsb (String.eqb f)
                                      ["productId"; "productVariantId"]%string))
                    fields = true ->
            NoDup fields ->
            NoDup (fields ++ ["productId"; "productVariantId"]%string)).
  { induction fields as [|f fields IH]; cbn [forallb app]; intros Hf Hn.
    - repeat constructor; cbn; intuition discriminate.
    - apply andb_prop in Hf as [Hf Hfs]. inversion Hn; subst.
      constructor; [|auto].
      rewrite in_app_iff. intros [Hin | Hin]; [contradiction|].
      cbn in Hin, Hf.
      destruct Hin as [<- | [<- | []]]; cbn in Hf; discriminate. }
  destruct sortInput as [[n p c]|]; [destruct n as [n|], p as [p|]|];
    (split; [|split; [cbn; lia | reflexivity]]).
  - apply (Hnodup ["productName.keyword"; "priceWithTax"]%string);
      [reflexivity|]. repeat constructor; cbn; intuition discriminate.
  - apply (Hnodup ["productName.keyword"]%string);
      [reflexivity|]. repeat constructor; cbn; intuition discriminate.
  - apply (Hnodup ["priceWithTax"]%string);
      [reflexivity|]. repeat constructor; cbn; intuition discriminate.
  - apply (Hnodup []); [reflexivity | constructor].
  - apply (Hnodup []); [reflexivity | constructor].
Qed.

(** ** The facet operator *)

Section FacetOperator.

Variable text_match : string -> list string -> Source.t -> bool.

Lemma matches_buildQuery (input : CursorSearchInput) (d : Source.t) :
  matches text_match d (buildQuery input)
  = text_group text_match input d && facet_group input d
    && collection_group input d.
Proof.
  unfold buildQuery. cbn [matches].
  rewrite forallb_app, matches_term_clauses, matches_facet_clauses,
    matches_collection_clauses.
  destruct (if (List.length (term_clauses input) =? 0)%nat
            then term_clauses input ++ [match_all] else term_clauses input);
    [destruct (facet_clauses input ++ collection_clauses input)|];
    rewrite andb_true_r; apply andb_assoc.
Qed.

Lemma forallb_existsb_cons {A : Type} (p : A -> bool) (x : A) (l : list A) :
  forallb p (x :: l) = true -> existsb p (x :: l) = true.
Proof. cbn. intros H. apply andb_prop in H as [-> _]. reflexivity. Qed.

End FacetOperator.

(** X9.  Whatever else is asked, a document selected with the facet values
    combined by AND is also selected with them combined by OR; an absent
    operator behaves as OR; and with a single facet value the operator
    makes no difference. *)
Theorem facet_operator_and_within_or
  (text_match : string -> list string -> Source.t -> bool)
  (input : CursorSearchInput) (d : Source.t) :
  let selected operator :=
    matches text_match d (buildQuery (set_operator input operator)) in
  (selected (Some AND) = true -> selected (Some OR) = true)
  /\ selected None = selected (Some OR)
  /\ (forall id, facetValueIds input = Some [id] ->
        selected (Some AND) = selected (Some OR)).
Proof.
  intros selected. unfold selected. rewrite !matches_buildQuery.
  unfold text_group, facet_group, collection_group.
  cbn [set_operator term facetValueIds facetValueOperator collectionId].
  split; [|split].
  - destruct (facetValueIds input) as [[|id ids]|]; auto.
    intros H. apply andb_prop in H as [H Hc].
    apply andb_prop in H as [Ht Hf].
    rewrite Ht, Hc, (forallb_existsb_cons _ _ _ Hf). reflexivity.
  - reflexivity.
  - intros id ->. cbn. now rewrite andb_true_r, orb_false_r.
Qed.
